(** * CodeChat AI front end: session orchestration, conversation log and
      answer rendering

    A shallow embedding of the browser script (the chat client) together with
    the properties that its specification states about it.

    The script is event driven: every handler runs to completion on one
    thread, and an [async] handler is cut at its network [await] into the part
    that runs at once and the part that runs when the reply is in.  The model
    keeps the script's own state object, the parts of the document that the
    script reads or writes, the clock, the timers and the requests in flight
    in one record, and every handler is a function on that record. *)

From Stdlib Require Import String Ascii DecimalString.
From Stdlib Require Import List NArith Bool Lia.
Import ListNotations.

Local Open Scope N_scope.
Local Open Scope list_scope.

(** ** Strings

    A JavaScript string is a sequence of UTF-16 code units.  The regular
    expressions of the script carry no [u] flag, so they too work on code
    units. *)

Definition jsstring := list N.

Definition js (s : string) : jsstring :=
  List.map N_of_ascii (list_ascii_of_string s).

(** Template text that holds double quotes: an apostrophe in the argument
    stands for the double quote of the script's template. *)
Definition tpl (s : string) : jsstring :=
  List.map (fun c => if N.eqb c 39 then 34 else c) (js s).

Definition jseqb (a b : jsstring) : bool :=
  if list_eq_dec N.eq_dec a b then true else false.

(** Number to string, as [String(n)] and string concatenation do for a
    non-negative integer. *)
Definition decimal (n : N) : jsstring :=
  js (NilZero.string_of_uint (N.to_uint n)).

Definition LT : N := 60.        (* < *)
Definition GT : N := 62.        (* > *)
Definition AMP : N := 38.       (* & *)
Definition NBSP : N := 160.     (* U+00A0 *)
Definition BACKTICK : N := 96.
Definition STAR : N := 42.
Definition NL : N := 10.

(** *** [String.prototype.trim]

    The code units that [trim] strips: the WhiteSpace and LineTerminator
    productions of the language. *)
Definition isWhiteSpace (c : N) : bool :=
  ((9 <=? c) && (c <=? 13))
  || (c =? 32) || (c =? 160) || (c =? 5760)
  || ((8192 <=? c) && (c <=? 8202))
  || (c =? 8232) || (c =? 8233) || (c =? 8239) || (c =? 8287)
  || (c =? 12288) || (c =? 65279).

Fixpoint trimStart (s : jsstring) : jsstring :=
  match s with
  | c :: s' => if isWhiteSpace c then trimStart s' else s
  | [] => []
  end.

Definition trimEnd (s : jsstring) : jsstring := rev (trimStart (rev s)).

Definition trim (s : jsstring) : jsstring := trimEnd (trimStart s).

(** Truthiness of a string: [!s] holds of the empty string only. *)
Definition truthy (s : jsstring) : bool :=
  match s with [] => false | _ :: _ => true end.

(** ** Utility functions *)

(** *** [escapeHtml]

    The script writes the text into a detached [div] through [textContent]
    and reads [innerHTML] back.  The document serialises a text node by
    replacing four code units, and nothing else. *)
Definition escapeChar (c : N) : jsstring :=
  if c =? AMP then js "&amp;"
  else if c =? NBSP then js "&nbsp;"
  else if c =? LT then js "&lt;"
  else if c =? GT then js "&gt;"
  else [c].

Definition escapeHtml (text : jsstring) : jsstring :=
  flat_map escapeChar text.

(** Reading escaped text back as text, as the document does when it parses
    the text as the content of an element.  It first turns every carriage
    return, together with a line feed that follows it, into one line feed.
    It then replaces a character reference by the code unit it names and
    drops every U+0000.  The four references below are the ones the
    serialiser above writes, and the text is taken to hold no [<], as the
    serialiser writes none. *)
Definition CR : N := 13.
Definition NUL : N := 0.

Fixpoint normalizeNewlines (afterCR : bool) (s : jsstring) : jsstring :=
  match s with
  | [] => []
  | c :: s' =>
      if c =? CR then 10 :: normalizeNewlines true s'
      else if (c =? 10) && afterCR then normalizeNewlines false s'
      else c :: normalizeNewlines false s'
  end.

Fixpoint stripPrefix (p s : jsstring) : option jsstring :=
  match p, s with
  | [], _ => Some s
  | a :: p', b :: s' => if a =? b then stripPrefix p' s' else None
  | _ :: _, [] => None
  end.

Definition reference (s : jsstring) : option (N * nat) :=
  match stripPrefix (js "&amp;") s with
  | Some _ => Some (AMP, 4%nat)
  | None =>
  match stripPrefix (js "&nbsp;") s with
  | Some _ => Some (NBSP, 5%nat)
  | None =>
  match stripPrefix (js "&lt;") s with
  | Some _ => Some (LT, 3%nat)
  | None =>
  match stripPrefix (js "&gt;") s with
  | Some _ => Some (GT, 3%nat)
  | None => None
  end end end end.

(** [skip] counts the code units of a reference that are still to be passed
    over. *)
Fixpoint parseTextFrom (skip : nat) (s : jsstring) : jsstring :=
  match s with
  | [] => []
  | c :: s' =>
      match skip with
      | S k => parseTextFrom k s'
      | O =>
          match reference s with
          | Some (u, n) => u :: parseTextFrom n s'
          | None =>
              if c =? NUL then parseTextFrom O s' else c :: parseTextFrom O s'
          end
      end
  end.

Definition parseText (s : jsstring) : jsstring :=
  parseTextFrom O (normalizeNewlines false s).

(** *** [getBasename]: [path.split(/[\\/]/).pop()] *)
Definition isSeparator (c : N) : bool := (c =? 47) || (c =? 92).

Fixpoint lastSegment (acc s : jsstring) : jsstring :=
  match s with
  | [] => acc
  | c :: s' => if isSeparator c then lastSegment [] s' else lastSegment (acc ++ [c]) s'
  end.

Definition getBasename (path : jsstring) : jsstring := lastSegment [] path.

(** ** Global replacement

    [s.replace(re, template)] with a [g] regular expression walks the string
    from the left.  Where the expression matches, the match is replaced and
    the walk goes on behind it; elsewhere the code unit is kept.  A matcher
    returns the replacement text and the length of the match, which is never
    zero for the expressions of the script.  [skip] counts the code units of
    the current match that the walk still has to pass. *)
Section Replace.

Variable matchAt : jsstring -> option (jsstring * nat).

Fixpoint replaceFrom (skip : nat) (s : jsstring) : jsstring :=
  match s with
  | [] => []
  | c :: s' =>
      match skip with
      | S k => replaceFrom k s'
      | O =>
          match matchAt s with
          | Some (out, n) => out ++ replaceFrom (Nat.pred n) s'
          | None => c :: replaceFrom O s'
          end
      end
  end.

Definition replaceAll (s : jsstring) : jsstring := replaceFrom O s.

End Replace.

(** The longest prefix whose code units satisfy [p], and what follows it:
    a greedy [c+] or [c*] over a character class [c]. *)
Fixpoint span (p : N -> bool) (s : jsstring) : jsstring * jsstring :=
  match s with
  | c :: s' =>
      if p c then let (a, b) := span p s' in (c :: a, b) else ([], s)
  | [] => ([], [])
  end.

(** [\w] *)
Definition isWord (c : N) : bool :=
  ((48 <=? c) && (c <=? 57)) || ((65 <=? c) && (c <=? 90))
  || (c =? 95) || ((97 <=? c) && (c <=? 122)).

Definition fence : jsstring := [BACKTICK; BACKTICK; BACKTICK].

(** The shortest prefix that is followed by a fence, and what follows the
    fence: the lazy [[\s\S]*?] in front of the closing fence. *)
Fixpoint findFence (s : jsstring) : option (jsstring * jsstring) :=
  match stripPrefix fence s with
  | Some rest => Some ([], rest)
  | None =>
      match s with
      | [] => None
      | c :: s' =>
          match findFence s' with
          | Some (a, b) => Some (c :: a, b)
          | None => None
          end
      end
  end.

(** [/```(\w+)?\n([\s\S]*?)```/] at the head of [s], replaced by
    [<pre><code>$2</code></pre>].  The greedy [\w+] cannot give code units
    back: what follows it must be a line feed, which is no word character. *)
Definition matchCodeBlock (s : jsstring) : option (jsstring * nat) :=
  match stripPrefix fence s with
  | None => None
  | Some s1 =>
      let (lang, s2) := span isWord s1 in
      match s2 with
      | c :: s3 =>
          if c =? NL then
            match findFence s3 with
            | Some (body, _) =>
                Some (js "<pre><code>" ++ body ++ js "</code></pre>",
                      (3 + length lang + 1 + length body + 3)%nat)
            | None => None
            end
          else None
      | [] => None
      end
  end.

(** [open([^d]+)close] at the head of [s], where [d] is the first code unit of
    [close]: the greedy class stops at the first [d] and cannot give code
    units back, since [close] starts with [d]. *)
Definition matchDelimited (d : N) (opening closing before after : jsstring)
    (s : jsstring) : option (jsstring * nat) :=
  match stripPrefix opening s with
  | None => None
  | Some s1 =>
      let (body, s2) := span (fun c => negb (c =? d)) s1 in
      match body with
      | [] => None
      | _ :: _ =>
          match stripPrefix closing s2 with
          | Some _ =>
              Some (before ++ body ++ after,
                    (length opening + length body + length closing)%nat)
          | None => None
          end
      end
  end.

(** [/`([^`]+)`/] *)
Definition matchInlineCode : jsstring -> option (jsstring * nat) :=
  matchDelimited BACKTICK [BACKTICK] [BACKTICK] (js "<code>") (js "</code>").

(** [/\*\*([^*]+)\*\*/] *)
Definition matchBold : jsstring -> option (jsstring * nat) :=
  matchDelimited STAR [STAR; STAR] [STAR; STAR] (js "<strong>") (js "</strong>").

(** [/\*([^*]+)\*/] *)
Definition matchItalic : jsstring -> option (jsstring * nat) :=
  matchDelimited STAR [STAR] [STAR] (js "<em>") (js "</em>").

(** [/\n\n/] and [/\n/] *)
Definition matchLiteral (lit out : jsstring) (s : jsstring)
    : option (jsstring * nat) :=
  match stripPrefix lit s with
  | Some _ => Some (out, length lit)
  | None => None
  end.

Definition matchParagraphBreak := matchLiteral [NL; NL] (js "</p><p>").
Definition matchLineBreak := matchLiteral [NL] (js "<br>").

Definition startsWith (p s : jsstring) : bool :=
  match stripPrefix p s with Some _ => true | None => false end.

(** *** [formatAnswer] *)
Definition codeBlocks := replaceAll matchCodeBlock.
Definition inlineCode := replaceAll matchInlineCode.
Definition bold := replaceAll matchBold.
Definition italic := replaceAll matchItalic.
Definition paragraphBreaks := replaceAll matchParagraphBreak.
Definition lineBreaks := replaceAll matchLineBreak.

Definition wrapParagraph (html : jsstring) : jsstring :=
  if negb (startsWith (js "<") html)
  then js "<p>" ++ html ++ js "</p>"
  else html.

Definition formatAnswer (text : jsstring) : jsstring :=
  let html :=
    lineBreaks (paragraphBreaks (italic (bold (inlineCode (codeBlocks text))))) in
  wrapParagraph html.

(** ** The world of the script *)

(** The [state] object of the script. *)
Record State := mkState {
  repositoryLoaded : bool;
  isLoading : bool;
  currentPath : option jsstring        (* [null] or [undefined] is [None] *)
}.

(** A child of the message list.  The script creates these elements itself
    and fills them through [innerHTML]; [innerHTML] is the markup of what the
    element holds.  Of the children only the typing indicator carries an [id]
    of its own, but the markup of a message holds text of the service as it
    came, and the document builds elements from it that may carry ids. *)
Record Element := mkElement {
  el_id : option jsstring;
  className : jsstring;
  innerHTML : jsstring
}.

(** The elements of the document that the script holds in [elements], each
    with the properties the script reads or writes.  Scroll position and the
    height of the text area are layout and stay outside the model.

    How the document reads markup is the document's own business and is not
    fixed here: [parseIds m] stands for the ids of the elements that the
    document builds from the markup [m], in document order, and
    [cutMarkup id m] for the markup that is left of [m] once the first of
    these elements with the id [id] is taken out.  Every property below that
    does not name a particular document holds whatever these two are.
    Markup is taken to build elements and nothing more: handlers that it may
    carry are not run. *)
Record Dom := mkDom {
  repoPath_value : jsstring;
  repoStatus_className : jsstring;
  repoStatus_text : jsstring;           (* its [.status-text] child *)
  statsSection_hidden : bool;
  statFiles_text : jsstring;
  statChunks_text : jsstring;
  statVectors_text : jsstring;
  messages : list Element;
  messageInput_value : jsstring;
  messageInput_disabled : bool;
  sendBtn_disabled : bool;
  inputHint_text : jsstring;
  loadingOverlay_hidden : bool;
  loadingText_text : jsstring;
  parseIds : jsstring -> list jsstring;
  cutMarkup : jsstring -> jsstring -> jsstring
}.

(** The calls to the remote service. *)
Inductive Request :=
| GetStatus
| PostLoad (path : jsstring)
| PostAsk (question : jsstring) (top_k : N).

(** An [async] handler that waits for its reply, with the local constants
    that its remaining part uses. *)
Inductive Task :=
| AwaitStatus
| AwaitLoad (path : jsstring)
| AwaitAsk (typingId : jsstring).

(** What the script did to the message list and to the network, in order:
    it appended a child, removed a child, cut an element with the id [id]
    out of the child [host], or sent a request. *)
Inductive Effect :=
| Appended (e : Element)
| Removed (e : Element)
| Cut (host : Element) (id : jsstring)
| Fetched (r : Request).

Record World := mkWorld {
  state : State;
  doc : Dom;
  clock : N;                  (* [Date.now()], in milliseconds *)
  timers : list N;            (* the times at which [setTimeout] callbacks are due *)
  inflight : list Task;
  history : list Effect
}.

(** *** Field updates *)

Definition set_repositoryLoaded (v : bool) (s : State) : State :=
  mkState v (isLoading s) (currentPath s).
Definition set_isLoading (v : bool) (s : State) : State :=
  mkState (repositoryLoaded s) v (currentPath s).
Definition set_currentPath (v : option jsstring) (s : State) : State :=
  mkState (repositoryLoaded s) (isLoading s) v.

Definition set_repoPath_value (v : jsstring) (d : Dom) : Dom :=
  mkDom v (repoStatus_className d) (repoStatus_text d) (statsSection_hidden d)
    (statFiles_text d) (statChunks_text d) (statVectors_text d) (messages d)
    (messageInput_value d) (messageInput_disabled d) (sendBtn_disabled d)
    (inputHint_text d) (loadingOverlay_hidden d) (loadingText_text d)
    (parseIds d) (cutMarkup d).
Definition set_repoStatus (c t : jsstring) (d : Dom) : Dom :=
  mkDom (repoPath_value d) c t (statsSection_hidden d)
    (statFiles_text d) (statChunks_text d) (statVectors_text d) (messages d)
    (messageInput_value d) (messageInput_disabled d) (sendBtn_disabled d)
    (inputHint_text d) (loadingOverlay_hidden d) (loadingText_text d)
    (parseIds d) (cutMarkup d).
Definition set_stats (f c v : jsstring) (d : Dom) : Dom :=
  mkDom (repoPath_value d) (repoStatus_className d) (repoStatus_text d) false
    f c v (messages d)
    (messageInput_value d) (messageInput_disabled d) (sendBtn_disabled d)
    (inputHint_text d) (loadingOverlay_hidden d) (loadingText_text d)
    (parseIds d) (cutMarkup d).
Definition set_messages (m : list Element) (d : Dom) : Dom :=
  mkDom (repoPath_value d) (repoStatus_className d) (repoStatus_text d)
    (statsSection_hidden d)
    (statFiles_text d) (statChunks_text d) (statVectors_text d) m
    (messageInput_value d) (messageInput_disabled d) (sendBtn_disabled d)
    (inputHint_text d) (loadingOverlay_hidden d) (loadingText_text d)
    (parseIds d) (cutMarkup d).
Definition set_messageInput_value (v : jsstring) (d : Dom) : Dom :=
  mkDom (repoPath_value d) (repoStatus_className d) (repoStatus_text d)
    (statsSection_hidden d)
    (statFiles_text d) (statChunks_text d) (statVectors_text d) (messages d)
    v (messageInput_disabled d) (sendBtn_disabled d)
    (inputHint_text d) (loadingOverlay_hidden d) (loadingText_text d)
    (parseIds d) (cutMarkup d).
Definition set_messageInput_disabled (v : bool) (d : Dom) : Dom :=
  mkDom (repoPath_value d) (repoStatus_className d) (repoStatus_text d)
    (statsSection_hidden d)
    (statFiles_text d) (statChunks_text d) (statVectors_text d) (messages d)
    (messageInput_value d) v (sendBtn_disabled d)
    (inputHint_text d) (loadingOverlay_hidden d) (loadingText_text d)
    (parseIds d) (cutMarkup d).
Definition set_sendBtn_disabled (v : bool) (d : Dom) : Dom :=
  mkDom (repoPath_value d) (repoStatus_className d) (repoStatus_text d)
    (statsSection_hidden d)
    (statFiles_text d) (statChunks_text d) (statVectors_text d) (messages d)
    (messageInput_value d) (messageInput_disabled d) v
    (inputHint_text d) (loadingOverlay_hidden d) (loadingText_text d)
    (parseIds d) (cutMarkup d).
Definition set_inputHint_text (v : jsstring) (d : Dom) : Dom :=
  mkDom (repoPath_value d) (repoStatus_className d) (repoStatus_text d)
    (statsSection_hidden d)
    (statFiles_text d) (statChunks_text d) (statVectors_text d) (messages d)
    (messageInput_value d) (messageInput_disabled d) (sendBtn_disabled d)
    v (loadingOverlay_hidden d) (loadingText_text d)
    (parseIds d) (cutMarkup d).
Definition set_loadingOverlay_hidden (v : bool) (d : Dom) : Dom :=
  mkDom (repoPath_value d) (repoStatus_className d) (repoStatus_text d)
    (statsSection_hidden d)
    (statFiles_text d) (statChunks_text d) (statVectors_text d) (messages d)
    (messageInput_value d) (messageInput_disabled d) (sendBtn_disabled d)
    (inputHint_text d) v (loadingText_text d)
    (parseIds d) (cutMarkup d).
Definition set_loadingText_text (v : jsstring) (d : Dom) : Dom :=
  mkDom (repoPath_value d) (repoStatus_className d) (repoStatus_text d)
    (statsSection_hidden d)
    (statFiles_text d) (statChunks_text d) (statVectors_text d) (messages d)
    (messageInput_value d) (messageInput_disabled d) (sendBtn_disabled d)
    (inputHint_text d) (loadingOverlay_hidden d) v
    (parseIds d) (cutMarkup d).

Definition on_state (f : State -> State) (w : World) : World :=
  mkWorld (f (state w)) (doc w) (clock w) (timers w) (inflight w) (history w).
Definition on_doc (f : Dom -> Dom) (w : World) : World :=
  mkWorld (state w) (f (doc w)) (clock w) (timers w) (inflight w) (history w).
Definition set_clock (t : N) (w : World) : World :=
  mkWorld (state w) (doc w) t (timers w) (inflight w) (history w).
Definition set_timers (l : list N) (w : World) : World :=
  mkWorld (state w) (doc w) (clock w) l (inflight w) (history w).
Definition set_inflight (l : list Task) (w : World) : World :=
  mkWorld (state w) (doc w) (clock w) (timers w) l (history w).
Definition record (e : Effect) (w : World) : World :=
  mkWorld (state w) (doc w) (clock w) (timers w) (inflight w) (history w ++ [e]).

(** ** Scripts

    A piece of the script reads and writes the world and either completes or
    throws an [Error] with a message.  What it wrote before it threw stays
    written. *)
Inductive Completion (A : Type) :=
| Normal (a : A)
| Thrown (message : jsstring).
Arguments Normal {A} a.
Arguments Thrown {A} message.

Definition Script (A : Type) := World -> Completion A * World.

Definition ret {A} (a : A) : Script A := fun w => (Normal a, w).

Definition bind {A B} (c : Script A) (k : A -> Script B) : Script B :=
  fun w =>
    match c w with
    | (Normal a, w') => k a w'
    | (Thrown m, w') => (Thrown m, w')
    end.

Definition throw {A} (message : jsstring) : Script A :=
  fun w => (Thrown message, w).

(** [try { body } catch (error) { handler(error.message) }] *)
Definition tryCatch {A} (body : Script A) (handler : jsstring -> Script A)
    : Script A :=
  fun w =>
    match body w with
    | (Normal a, w') => (Normal a, w')
    | (Thrown m, w') => handler m w'
    end.

(** [try { body } finally { final }]: [final] runs in every case, and a
    completion of [body] is kept unless [final] throws itself. *)
Definition tryFinally {A} (body : Script A) (final : Script unit) : Script A :=
  fun w =>
    match body w with
    | (r, w') =>
        match final w' with
        | (Normal _, w'') => (r, w'')
        | (Thrown m, w'') => (Thrown m, w'')
        end
    end.

Definition read {A} (f : World -> A) : Script A := fun w => (Normal (f w), w).
Definition write (f : World -> World) : Script unit := fun w => (Normal tt, f w).

Declare Scope script_scope.
Delimit Scope script_scope with script.
Notation "x <- c ;; k" := (bind c (fun x => k))
  (at level 61, c at next level, right associativity) : script_scope.
Notation "c ;; k" := (bind c (fun _ => k))
  (at level 61, right associativity) : script_scope.
Notation "' p <- c ;; k" := (bind c (fun x => let 'p := x in k))
  (at level 61, p pattern, c at next level, right associativity) : script_scope.
Local Open Scope script_scope.

Definition exec {A} (c : Script A) (w : World) : World := snd (c w).

(** ** UI functions *)

Definition scrollToBottom : Script unit := ret tt.        (* layout only *)
Definition autoResizeTextarea : Script unit := ret tt.    (* layout only *)

Definition updateRepoStatus (status text : jsstring) : Script unit :=
  write (on_doc (set_repoStatus (js "repo-status " ++ status) text)).

Record RepoStats := mkRepoStats {
  unique_files : N;
  total_chunks : N;
  total_vectors : N
}.

Definition updateStats (stats : option RepoStats) : Script unit :=
  match stats with
  | None => ret tt
  | Some s =>
      write (on_doc (set_stats (decimal (unique_files s))
                               (decimal (total_chunks s))
                               (decimal (total_vectors s))))
  end.

Definition enableChat : Script unit :=
  write (on_doc (set_messageInput_disabled false));;
  write (on_doc (set_sendBtn_disabled false));;
  write (on_doc (set_inputHint_text (js "Ask anything about your code"))).

Definition disableSend : Script unit := write (on_doc (set_sendBtn_disabled true)).
Definition enableSend : Script unit := write (on_doc (set_sendBtn_disabled false)).

Definition showLoading (text : jsstring) : Script unit :=
  write (on_doc (set_loadingText_text text));;
  write (on_doc (set_loadingOverlay_hidden false)).

Definition hideLoading : Script unit :=
  write (on_doc (set_loadingOverlay_hidden true)).

(** [elements.messages.appendChild(e)] *)
Definition appendChild (e : Element) : Script unit :=
  write (fun w =>
    record (Appended e) (on_doc (fun d => set_messages (messages d ++ [e]) d) w)).

Definition avatarSvg : jsstring :=
  tpl "<svg viewBox='0 0 24 24' fill='none' stroke='currentColor' stroke-width='2'>
             <path d='M16 18l6-6-6-6M8 6l-6 6 6 6'/>
           </svg>".

Definition messageHtml (avatar content : jsstring) : jsstring :=
  tpl "
        <div class='message-avatar'>" ++ avatar ++ tpl "</div>
        <div class='message-content'>
            <div class='message-text'>" ++ content ++ js "</div>
        </div>
    ".

Definition addMessage (role content : jsstring) : Script unit :=
  let avatar := if jseqb role (js "assistant") then avatarSvg else js "You" in
  appendChild (mkElement None (js "message " ++ role) (messageHtml avatar content));;
  scrollToBottom.

Definition typingHtml : jsstring :=
  tpl "
        <div class='message-avatar'>
            <svg viewBox='0 0 24 24' fill='none' stroke='currentColor' stroke-width='2'>
                <path d='M16 18l6-6-6-6M8 6l-6 6 6 6'/>
            </svg>
        </div>
        <div class='message-content'>
            <div class='message-text'>
                <div class='typing-indicator'>
                    <span></span><span></span><span></span>
                </div>
            </div>
        </div>
    ".

Definition showTypingIndicator : Script jsstring :=
  now <- read clock;;
  let id := js "typing-" ++ decimal now in
  appendChild (mkElement (Some id) (js "message assistant") typingHtml);;
  scrollToBottom;;
  ret id.

Definition hasId (id : jsstring) (e : Element) : bool :=
  match el_id e with
  | Some i => jseqb i id
  | None => false
  end.

(** Where [document.getElementById] finds an id: on a child of the message
    list itself, or on an element inside the child [host], built from its
    markup. *)
Inductive Found :=
| Own (e : Element)
| Inside (host : Element).

(** The markup of [e] holds an element with the id. *)
Definition mentions (parse : jsstring -> list jsstring) (id : jsstring)
    (e : Element) : bool :=
  existsb (jseqb id) (parse (innerHTML e)).

(** [document.getElementById(id)]: the first element, in document order,
    that carries the id; a child comes before the elements inside it, and
    these before the next child.  The elements with a fixed id that the page
    brings along are not children of the message list and none of their ids
    is a typing id, so the search is one over the message list. *)
Fixpoint getElementById (parse : jsstring -> list jsstring) (id : jsstring)
    (l : list Element) : option Found :=
  match l with
  | [] => None
  | e :: l' =>
      if hasId id e then Some (Own e)
      else if mentions parse id e then Some (Inside e)
      else getElementById parse id l'
  end.

(** The list once the element that [getElementById] returns is removed from
    the document: a child is gone, or a child holds less. *)
Fixpoint removeElement (parse : jsstring -> list jsstring)
    (cut : jsstring -> jsstring -> jsstring) (id : jsstring)
    (l : list Element) : list Element :=
  match l with
  | [] => []
  | e :: l' =>
      if hasId id e then l'
      else if mentions parse id e
      then mkElement (el_id e) (className e) (cut id (innerHTML e)) :: l'
      else e :: removeElement parse cut id l'
  end.

Definition removalOf (id : jsstring) (found : Found) : Effect :=
  match found with
  | Own e => Removed e
  | Inside host => Cut host id
  end.

Definition removeTypingIndicator (id : jsstring) : Script unit :=
  indicator <- read (fun w =>
                 getElementById (parseIds (doc w)) id (messages (doc w)));;
  match indicator with
  | Some found =>
      write (fun w =>
        record (removalOf id found)
          (on_doc (fun d =>
                     set_messages
                       (removeElement (parseIds d) (cutMarkup d) id (messages d))
                       d) w))
  | None => ret tt
  end.

(** [fetch] starts the request; the handler then waits at its [await]. *)
Definition fetch (r : Request) (waiting : Task) : Script unit :=
  write (fun w => set_inflight (inflight w ++ [waiting]) (record (Fetched r) w)).

Definition REVERT_DELAY : N := 3000.

(** [setTimeout(callback, 3000)]; the script has one callback only, and it
    keeps no handle on the timer. *)
Definition setTimeout (delay : N) : Script unit :=
  write (fun w => set_timers (timers w ++ [clock w + delay]) w).

Definition showError (message : jsstring) : Script unit :=
  updateRepoStatus (js "error") message;;
  setTimeout REVERT_DELAY.

(** The callback that [showError] hands to [setTimeout]. *)
Definition revertStatus : Script unit :=
  loaded <- read (fun w => repositoryLoaded (state w));;
  if negb loaded then updateRepoStatus [] (js "No repository loaded")
  else ret tt.

(** ** Replies of the remote service

    A reply is a JSON object; a field that the object lacks reads as
    [undefined], here [None]. *)
Inductive Reply (D : Type) :=
| Rejected (message : jsstring)      (* [fetch] or [response.json()] rejected *)
| Received (ok : bool) (data : D).
Arguments Rejected {D} message.
Arguments Received {D} ok data.

Definition awaitReply {D} (r : Reply D) : Script (bool * D) :=
  match r with
  | Rejected m => throw m
  | Received ok data => ret (ok, data)
  end.

(** A string field of a reply that may be missing or [null]. *)
Inductive Nullable :=
| Missing
| Null
| Text (s : jsstring).

Record StatusData := mkStatusData {
  repository_loaded : bool;
  repository_path : Nullable;
  status_stats : option RepoStats
}.

Record LoadData := mkLoadData {
  load_detail : option jsstring;
  load_message : option jsstring;
  load_stats : option (option RepoStats)     (* [data.stats], then [.vectors] *)
}.

Record AskData := mkAskData {
  ask_detail : option jsstring;
  answer : option jsstring;
  source_files : option (list jsstring)
}.

(** [x || fallback] for a string that may be missing. *)
Definition orElse (x : option jsstring) (fallback : jsstring) : jsstring :=
  match x with
  | Some s => if truthy s then s else fallback
  | None => fallback
  end.

(** A string in a template: [undefined] prints as its name. *)
Definition interpolate (x : option jsstring) : jsstring :=
  match x with
  | Some s => s
  | None => js "undefined"
  end.

(** The message of the [TypeError] that reading [property] of [undefined]
    throws (the wording is the engine's). *)
Definition typeErrorMessage (property : jsstring) : jsstring :=
  js "Cannot read properties of undefined (reading '" ++ property ++ js "')".

(** The same for [null]. *)
Definition nullErrorMessage (property : jsstring) : jsstring :=
  js "Cannot read properties of null (reading '" ++ property ++ js "')".

(** What the state object holds once the field is assigned to it; [None]
    stands for [null] and for [undefined] alike, the script never reads it
    back. *)
Definition assigned (x : Nullable) : option jsstring :=
  match x with
  | Text s => Some s
  | _ => None
  end.

(** What a text field shows once the field is assigned to its [value]:
    [null] gives the empty string, [undefined] prints as its name. *)
Definition asFieldValue (x : Nullable) : jsstring :=
  match x with
  | Missing => js "undefined"
  | Null => []
  | Text s => s
  end.

(** [getBasename(x)]: [x.split] throws when [x] is no string. *)
Definition basenameOf (x : Nullable) : Script jsstring :=
  match x with
  | Missing => throw (typeErrorMessage (js "split"))
  | Null => throw (nullErrorMessage (js "split"))
  | Text s => ret (getBasename s)
  end.

(** ** API functions *)

Definition checkStatus : Script unit :=
  fetch GetStatus AwaitStatus.

Definition checkStatus_resume (r : Reply StatusData) : Script unit :=
  tryCatch
    ('(_, data) <- awaitReply r;;
     if repository_loaded data then
       write (on_state (set_repositoryLoaded true));;
       write (on_state (set_currentPath (assigned (repository_path data))));;
       write (on_doc (set_repoPath_value (asFieldValue (repository_path data))));;
       basename <- basenameOf (repository_path data);;
       updateRepoStatus (js "loaded") (js "Loaded: " ++ basename);;
       updateStats (status_stats data);;
       enableChat
     else ret tt)
    (fun _ => ret tt).                     (* [console.log] *)

Definition loadSuccessHtml (message : jsstring) : jsstring :=
  js "
            <p>" ++ [9989] ++ js " <strong>Repository loaded successfully!</strong></p>
            <p>" ++ message ++ js "</p>
            <p>You can now ask me anything about your code. Try questions like:</p>
            <ul>
                <li>What is the main purpose of this project?</li>
                <li>Explain the file structure</li>
                <li>How does the authentication work?</li>
            </ul>
        ".

Definition loadFailureHtml (message : jsstring) : jsstring :=
  js "
            <p>" ++ [10060] ++ js " <strong>Failed to load repository</strong></p>
            <p>" ++ message ++ tpl "</p>
            <p class='hint'>Make sure the path exists and contains supported files (.py, .js, .ts, .java, .cpp, .md)</p>
        ".

(** [loadRepository] up to its [await]. *)
Definition loadRepository : Script unit :=
  path <- read (fun w => trim (repoPath_value (doc w)));;
  if negb (truthy path) then
    showError (js "Please enter a repository path")
  else
    showLoading (js "Loading repository...");;
    updateRepoStatus (js "loading") (js "Scanning files...");;
    fetch (PostLoad path) (AwaitLoad path).

(** [loadRepository] from its [await] on. *)
Definition loadRepository_resume (path : jsstring) (r : Reply LoadData)
    : Script unit :=
  tryFinally
    (tryCatch
       ('(ok, data) <- awaitReply r;;
        if negb ok then
          throw (orElse (load_detail data) (js "Failed to load repository"))
        else
          write (on_state (set_repositoryLoaded true));;
          write (on_state (set_currentPath (Some path)));;
          updateRepoStatus (js "loaded") (js "Loaded: " ++ getBasename path);;
          vectors <- match load_stats data with
                     | Some v => ret v
                     | None => throw (typeErrorMessage (js "vectors"))
                     end;;
          updateStats vectors;;
          enableChat;;
          addMessage (js "assistant")
            (loadSuccessHtml (interpolate (load_message data))))
       (fun message =>
          updateRepoStatus (js "error") message;;
          addMessage (js "assistant") (loadFailureHtml message)))
    hideLoading.

Definition sourceFileTag (f : jsstring) : jsstring :=
  tpl "<span class='source-file-tag'>" ++ escapeHtml f ++ js "</span>".

Definition sourceFilesHtml (files : list jsstring) : jsstring :=
  tpl "
                <div class='source-files'>
                    <div class='source-files-label'>" ++ [55357; 56513] ++ js " Source Files</div>
                    " ++ concat (List.map sourceFileTag files) ++ js "
                </div>
            ".

Definition askErrorHtml (message : jsstring) : jsstring :=
  js "
            <p>" ++ [10060] ++ js " <strong>Error</strong></p>
            <p>" ++ escapeHtml message ++ js "</p>
        ".

Definition TOP_K : N := 5.

(** The guard of [sendMessage]. *)
Definition blocked (question : jsstring) (s : State) : bool :=
  negb (truthy question) || negb (repositoryLoaded s) || isLoading s.

(** [sendMessage] up to its [await]. *)
Definition sendMessage : Script unit :=
  question <- read (fun w => trim (messageInput_value (doc w)));;
  st <- read state;;
  if blocked question st then ret tt
  else
    addMessage (js "user") (js "<p>" ++ escapeHtml question ++ js "</p>");;
    write (on_doc (set_messageInput_value []));;
    autoResizeTextarea;;
    typingId <- showTypingIndicator;;
    write (on_state (set_isLoading true));;
    disableSend;;
    fetch (PostAsk question TOP_K) (AwaitAsk typingId).

(** [sendMessage] from its [await] on. *)
Definition sendMessage_resume (typingId : jsstring) (r : Reply AskData)
    : Script unit :=
  tryFinally
    (tryCatch
       ('(ok, data) <- awaitReply r;;
        if negb ok then
          throw (orElse (ask_detail data) (js "Failed to get answer"))
        else
          removeTypingIndicator typingId;;
          answerHtml <- match answer data with
                        | Some text => ret (formatAnswer text)
                        | None => throw (typeErrorMessage (js "replace"))
                        end;;
          let answerHtml :=
            match source_files data with
            | Some (f :: fs) => answerHtml ++ sourceFilesHtml (f :: fs)
            | _ => answerHtml
            end in
          addMessage (js "assistant") answerHtml)
       (fun message =>
          removeTypingIndicator typingId;;
          addMessage (js "assistant") (askErrorHtml message)))
    (write (on_state (set_isLoading false));;
     enableSend).

(** The click handler of a quick-question button; [question] is its
    [data-question] attribute. *)
Definition quickClick (question : option jsstring) : Script unit :=
  loaded <- read (fun w => repositoryLoaded (state w));;
  match question with
  | Some q =>
      if loaded && truthy q then
        write (on_doc (set_messageInput_value q));;
        sendMessage
      else ret tt
  | None => ret tt
  end.

(** ** Events

    What can happen to the page once it is loaded: the user edits a field or
    clicks, a reply comes in for a handler that waits, a timer fires, time
    passes.  Each event runs its handler to the end (or to its [await]). *)
Inductive Event :=
| PathInput (text : jsstring)            (* the user edits the path field *)
| MessageInput (text : jsstring)         (* the user edits the message field *)
| LoadClick                              (* the load button, or Enter in the path field *)
| SendClick                              (* the send button, or Enter in the message field *)
| QuickClick (question : option jsstring)
| StatusReply (r : Reply StatusData)
| LoadReply (path : jsstring) (r : Reply LoadData)
| AskReply (typingId : jsstring) (r : Reply AskData)
| TimerFires (due : N)
| Tick (ms : N).

Definition task_eqb (a b : Task) : bool :=
  match a, b with
  | AwaitStatus, AwaitStatus => true
  | AwaitLoad p, AwaitLoad q => jseqb p q
  | AwaitAsk i, AwaitAsk j => jseqb i j
  | _, _ => false
  end.

(** Take a waiting handler out of the list of those in flight. *)
Fixpoint takeTask (t : Task) (l : list Task) : option (list Task) :=
  match l with
  | [] => None
  | x :: l' =>
      if task_eqb t x then Some l'
      else match takeTask t l' with
           | Some r => Some (x :: r)
           | None => None
           end
  end.

Fixpoint takeTimer (due : N) (l : list N) : option (list N) :=
  match l with
  | [] => None
  | x :: l' =>
      if due =? x then Some l'
      else match takeTimer due l' with
           | Some r => Some (x :: r)
           | None => None
           end
  end.

Definition resume (t : Task) (rest : Script unit) (w : World) : option World :=
  match takeTask t (inflight w) with
  | Some l => Some (exec rest (set_inflight l w))
  | None => None
  end.

(** [handle e w] is what the handler of [e] does to [w].  It is [None] when
    no handler waits for that reply, or no timer is due.  Whether the page
    lets the user raise the event at all is [enabled], below: [handle] looks
    at no disabled control, so what holds of every event holds of the events
    that the page delivers. *)
Definition handle (e : Event) (w : World) : option World :=
  match e with
  | PathInput text => Some (on_doc (set_repoPath_value text) w)
  | MessageInput text =>
      Some (exec autoResizeTextarea (on_doc (set_messageInput_value text) w))
  | LoadClick => Some (exec loadRepository w)
  | SendClick => Some (exec sendMessage w)
  | QuickClick question => Some (exec (quickClick question) w)
  | StatusReply r => resume AwaitStatus (checkStatus_resume r) w
  | LoadReply path r => resume (AwaitLoad path) (loadRepository_resume path r) w
  | AskReply typingId r =>
      resume (AwaitAsk typingId) (sendMessage_resume typingId r) w
  | TimerFires due =>
      if due <=? clock w then
        match takeTimer due (timers w) with
        | Some l => Some (exec revertStatus (set_timers l w))
        | None => None
        end
      else None
  | Tick ms => Some (set_clock (clock w + ms) w)
  end.

Fixpoint run (es : list Event) (w : World) : option World :=
  match es with
  | [] => Some w
  | e :: es' =>
      match handle e w with
      | Some w' => run es' w'
      | None => None
      end
  end.

(** The page delivers no input to a disabled field and no click to a
    disabled button.  [sendMessage] runs on a click on the send button or on
    Enter in the message field, so one of the two must be enabled.  The
    script never disables the path field, the load button or the
    quick-question buttons. *)
Definition enabled (e : Event) (w : World) : bool :=
  match e with
  | MessageInput _ => negb (messageInput_disabled (doc w))
  | SendClick =>
      negb (sendBtn_disabled (doc w)) || negb (messageInput_disabled (doc w))
  | _ => true
  end.

Definition deliver (e : Event) (w : World) : option World :=
  if enabled e w then handle e w else None.

Fixpoint runPage (es : list Event) (w : World) : option World :=
  match es with
  | [] => Some w
  | e :: es' =>
      match deliver e w with
      | Some w' => runPage es' w'
      | None => None
      end
  end.

(** The page at [DOMContentLoaded]: the state object as the script declares
    it, the document [d] as the page brings it, and [checkStatus] started. *)
Definition boot (d : Dom) (now : N) : World :=
  exec checkStatus (mkWorld (mkState false false None) d now [] [] []).

(** [haystack.includes(needle)] *)
Fixpoint includes (needle haystack : jsstring) : bool :=
  startsWith needle haystack
  || match haystack with
     | [] => false
     | _ :: h' => includes needle h'
     end.

(** Text that none of the rules of [formatAnswer] touches. *)
Definition isPlain (c : N) : bool :=
  negb (c =? BACKTICK) && negb (c =? STAR) && negb (c =? NL).


(** ** A document for the examples

    The examples need a document that reads markup.  This one reads markup
    whose tags are written the plain way, [<name id=value>...</name>]: it
    takes every [ id=] for the id attribute of a start tag, and the element
    to reach to the first end tag of its name. *)

(** The shortest prefix that is followed by [needle], and what follows
    [needle]. *)
Fixpoint splitOn (needle s : jsstring) : option (jsstring * jsstring) :=
  match stripPrefix needle s with
  | Some rest => Some ([], rest)
  | None =>
      match s with
      | [] => None
      | c :: s' =>
          match splitOn needle s' with
          | Some (a, b) => Some (c :: a, b)
          | None => None
          end
      end
  end.

(** The value of the id attribute that starts here, quoted or bare. *)
Definition idValueAt (s : jsstring) : option jsstring :=
  match stripPrefix (js " id=") s with
  | Some (34 :: quoted) => Some (fst (span (fun c => negb (c =? 34)) quoted))
  | Some bare =>
      Some (fst (span (fun c => negb (c =? 32) && negb (c =? GT)) bare))
  | None => None
  end.

Fixpoint plainIds (markup : jsstring) : list jsstring :=
  match markup with
  | [] => []
  | _ :: m' =>
      match idValueAt markup with
      | Some v => v :: plainIds m'
      | None => plainIds m'
      end
  end.

(** The markup without the first element with a bare id attribute [id]: what
    is in front of its start tag, and what is behind its end tag. *)
Definition plainCut (id markup : jsstring) : jsstring :=
  match splitOn (js " id=" ++ id) markup with
  | None => markup
  | Some (front, back) =>
      match splitOn [LT] (rev front) with
      | None => markup
      | Some (revName, revBefore) =>
          let name := fst (span isWord (rev revName)) in
          match splitOn (js "</" ++ name ++ js ">") back with
          | Some (_, behind) => rev revBefore ++ behind
          | None => rev revBefore
          end
      end
  end.

(** A document as a page may bring it: nothing loaded, the chat disabled,
    an empty message list. *)
Definition dom0 : Dom :=
  mkDom [] (js "repo-status") (js "No repository loaded") true
        (js "0") (js "0") (js "0") [] [] true true
        (js "Load a repository to start chatting") true []
        plainIds plainCut.

Definition notBacktick (c : N) : bool := negb (c =? BACKTICK).
Definition notStar (c : N) : bool := negb (c =? STAR).
Definition notNewline (c : N) : bool := negb (c =? NL).


(** What the last rule writes for one code unit. *)
Definition lineBreakChar (c : N) : jsstring :=
  if c =? NL then js "<br>" else [c].

(** ** The questions in flight *)

(** The ids that the children of the message list carry themselves, in
    document order. *)
Definition ids (l : list Element) : list jsstring :=
  flat_map (fun e => match el_id e with Some i => [i] | None => [] end) l.

(** The typing ids that the waiting [sendMessage] calls hold. *)
Definition askOf (t : Task) : list jsstring :=
  match t with
  | AwaitAsk i => [i]
  | _ => []
  end.

Definition asks (l : list Task) : list jsstring := flat_map askOf l.



(** While a question is in flight, there is one such question and its typing
    indicator is a child of the message list; otherwise no question is in
    flight. *)
Definition consistent (w : World) : Prop :=
  if isLoading (state w)
  then exists id, asks (inflight w) = [id] /\ In id (ids (messages (doc w)))
  else asks (inflight w) = [].

(** The worlds that the page can be in: it starts with a message list whose
    elements have no id, and then events happen. *)
Definition reachable (w : World) : Prop :=
  exists (d : Dom) (now : N) (es : list Event),
    ids (messages d) = [] /\ run es (boot d now) = Some w.

(** A script whose every run relates the world it finds to the world it
    leaves. *)
Definition respects (R : World -> World -> Prop) {A} (c : Script A) : Prop :=
  forall w, R w (snd (c w)).

(** The questions in flight and [isLoading] are the same in [w'], and the
    ids of the children of the message list are still there. *)
Definition sameFlight (w w' : World) : Prop :=
  asks (inflight w') = asks (inflight w)
  /\ isLoading (state w') = isLoading (state w)
  /\ forall id, In id (ids (messages (doc w))) ->
                In id (ids (messages (doc w'))).

(** ** The elements that the handlers append *)

Definition userElement (question : jsstring) : Element :=
  mkElement None (js "message user")
    (messageHtml (js "You") (js "<p>" ++ escapeHtml question ++ js "</p>")).

Definition assistantElement (content : jsstring) : Element :=
  mkElement None (js "message assistant") (messageHtml avatarSvg content).

Definition typingElement (id : jsstring) : Element :=
  mkElement (Some id) (js "message assistant") typingHtml.


(** The world behind a [sendMessage] that passes its guard. *)
Definition asked (w : World) : World :=
  let question := trim (messageInput_value (doc w)) in
  let id := js "typing-" ++ decimal (clock w) in
  mkWorld
    (set_isLoading true (state w))
    (set_sendBtn_disabled true
       (set_messages ((messages (doc w) ++ [userElement question])
                      ++ [typingElement id])
          (set_messageInput_value [] (doc w))))
    (clock w) (timers w)
    (inflight w ++ [AwaitAsk id])
    (((history w ++ [Appended (userElement question)])
      ++ [Appended (typingElement id)])
     ++ [Fetched (PostAsk question TOP_K)]).



(** ** Kinds of reply *)

(** A reply that is no answer: the request or the reading of its body was
    rejected, or the service answered with an error status. *)
Definition failed {D} (r : Reply D) : bool :=
  match r with
  | Rejected _ => true
  | Received ok _ => negb ok
  end.

(** A load has succeeded when the service answered with a success status
    and a body with the [stats] that its interface promises. *)
Definition loaded (r : Reply LoadData) : bool :=
  match r with
  | Received true data =>
      match load_stats data with Some _ => true | None => false end
  | _ => false
  end.

(** The reply sends [loadRepository] into its [catch] block, which reports
    a failed load: every reply that is no success, the success status
    without [stats] among them. *)
Definition reportedFailed (r : Reply LoadData) : bool := negb (loaded r).

(** The reason that a failed reply carries. *)
Definition reason {D} (detail : D -> option jsstring) (fallback : jsstring)
    (r : Reply D) : jsstring :=
  match r with
  | Rejected m => m
  | Received _ data => orElse (detail data) fallback
  end.

(** The world that [es] lead to from [w], or [w] if they cannot happen. *)
Definition after (es : list Event) (w : World) : World :=
  match run es w with
  | Some w' => w'
  | None => w
  end.

(** ** Further vocabulary for the properties *)

(** Code units that [escapeHtml] leaves as they are. *)
Definition isMarkupSafe (c : N) : bool :=
  negb (c =? AMP) && negb (c =? NBSP) && negb (c =? LT) && negb (c =? GT).

(** Code units that the document keeps when it reads text. *)
Definition isKept (c : N) : bool := negb (c =? CR) && negb (c =? NUL).

Definition dropNulls (s : jsstring) : jsstring :=
  filter (fun c => negb (c =? NUL)) s.

Definition notSeparator (c : N) : bool := negb (isSeparator c).

(** A string without white space at its ends, and not empty. *)
Definition isTrimmed (s : jsstring) : bool := truthy s && jseqb (trim s) s.

(** The messages proper: the children of the message list that are no
    typing indicator. *)
Definition isMessage (e : Element) : bool :=
  match el_id e with
  | None => true
  | Some _ => false
  end.

Definition settled (l : list Element) : list Element := filter isMessage l.

(** [e'] is the message [e] at a later time: the same child, with the markup
    it had unless that markup held an element with an id. *)
Definition keptAs (parse : jsstring -> list jsstring) (e e' : Element) : Prop :=
  el_id e' = el_id e
  /\ className e' = className e
  /\ (innerHTML e' = innerHTML e \/ parse (innerHTML e) <> []).

(** The messages of [w] are still there in [w'], in their order and in
    front of the newer ones. *)
Definition logKept (w w' : World) : Prop :=
  parseIds (doc w') = parseIds (doc w)
  /\ exists older newer,
       settled (messages (doc w')) = older ++ newer
       /\ Forall2 (keptAs (parseIds (doc w))) (settled (messages (doc w))) older.

(** What is loaded stays loaded. *)
Definition staysLoaded (w w' : World) : Prop :=
  repositoryLoaded (state w) = true -> repositoryLoaded (state w') = true.

(** The requests in a history, in the order in which they were sent. *)
Definition requestOf (e : Effect) : list Request :=
  match e with
  | Fetched r => [r]
  | _ => []
  end.

Definition requests (h : list Effect) : list Request := flat_map requestOf h.

(** A request that carries what the service needs: a path or a question
    that is trimmed and not empty, and the fixed number of results. *)
Definition goodRequest (r : Request) : bool :=
  match r with
  | GetStatus => true
  | PostLoad path => isTrimmed path
  | PostAsk question top_k => isTrimmed question && (top_k =? 5)
  end.

(** From [w] to [w'] only good requests were sent. *)
Definition sendsGood (w w' : World) : Prop :=
  exists l, requests (history w') = requests (history w) ++ l
            /\ forallb goodRequest l = true.

(** A status reply that reports a loaded repository. *)
Definition statusLoaded (r : Reply StatusData) : bool :=
  match r with
  | Rejected _ => false
  | Received _ data => repository_loaded data
  end.


(** A question is only ever in flight for a loaded repository. *)
Definition askedWhenLoaded (w : World) : Prop :=
  isLoading (state w) = true -> repositoryLoaded (state w) = true.

Definition keepsAskedWhenLoaded (w w' : World) : Prop :=
  askedWhenLoaded w -> askedWhenLoaded w'.


(** What the rest of [sendMessage] leaves alone. *)
Definition askFrame (w w' : World) : Prop :=
  inflight w' = inflight w
  /\ timers w' = timers w
  /\ clock w' = clock w
  /\ repositoryLoaded (state w') = repositoryLoaded (state w)
  /\ currentPath (state w') = currentPath (state w)
  /\ messageInput_disabled (doc w') = messageInput_disabled (doc w).


(** The two documents differ in the text of the message field at most. *)
Definition sameButMessageField (d d' : Dom) : Prop :=
  set_messageInput_value (messageInput_value d') d = d'.
(** * Properties of the utility functions *)

Lemma jseqb_eq (a b : jsstring) : jseqb a b = true <-> a = b.
Proof.
  unfold jseqb. destruct (list_eq_dec N.eq_dec a b); split; congruence.
Qed.

Lemma jseqb_refl (a : jsstring) : jseqb a a = true.
Proof. now apply jseqb_eq. Qed.

Lemma stripPrefix_app (p s : jsstring) : stripPrefix p (p ++ s) = Some s.
Proof.
  induction p as [|a p IH]; simpl; [reflexivity|].
  now rewrite N.eqb_refl.
Qed.

Lemma stripPrefix_head (a c : N) (p s : jsstring) :
  (c =? a) = false -> stripPrefix (a :: p) (c :: s) = None.
Proof.
  intros H. cbn [stripPrefix]. now rewrite N.eqb_sym, H.
Qed.

Lemma stripPrefix_same (a : N) (p s : jsstring) :
  stripPrefix (a :: p) (a :: s) = stripPrefix p s.
Proof. cbn [stripPrefix]. now rewrite N.eqb_refl. Qed.

Lemma parseTextFrom_skip (a s : jsstring) :
  parseTextFrom (List.length a) (a ++ s) = parseTextFrom O s.
Proof.
  induction a as [|x a IH]; simpl; [reflexivity | exact IH].
Qed.

Lemma decode_escapeChar (c : N) (s : jsstring) :
  parseTextFrom O (escapeChar c ++ s)
  = (if c =? NUL then [] else [c]) ++ parseTextFrom O s.
Proof.
  unfold escapeChar.
  destruct (c =? AMP) eqn:Ea.
  { apply N.eqb_eq in Ea; subst c.
    change (js "&amp;" ++ s) with (AMP :: (js "amp;" ++ s)).
    change (parseTextFrom O (AMP :: (js "amp;" ++ s)))
      with (AMP :: parseTextFrom (List.length (js "amp;")) (js "amp;" ++ s)).
    now rewrite parseTextFrom_skip. }
  destruct (c =? NBSP) eqn:En.
  { apply N.eqb_eq in En; subst c.
    change (js "&nbsp;" ++ s) with (AMP :: (js "nbsp;" ++ s)).
    change (parseTextFrom O (AMP :: (js "nbsp;" ++ s)))
      with (NBSP :: parseTextFrom (List.length (js "nbsp;")) (js "nbsp;" ++ s)).
    now rewrite parseTextFrom_skip. }
  destruct (c =? LT) eqn:El.
  { apply N.eqb_eq in El; subst c.
    change (js "&lt;" ++ s) with (AMP :: (js "lt;" ++ s)).
    change (parseTextFrom O (AMP :: (js "lt;" ++ s)))
      with (LT :: parseTextFrom (List.length (js "lt;")) (js "lt;" ++ s)).
    now rewrite parseTextFrom_skip. }
  destruct (c =? GT) eqn:Eg.
  { apply N.eqb_eq in Eg; subst c.
    change (js "&gt;" ++ s) with (AMP :: (js "gt;" ++ s)).
    change (parseTextFrom O (AMP :: (js "gt;" ++ s)))
      with (GT :: parseTextFrom (List.length (js "gt;")) (js "gt;" ++ s)).
    now rewrite parseTextFrom_skip. }
  assert (R : reference (c :: s) = None).
  { unfold reference. change (js "&amp;") with (AMP :: js "amp;").
    change (js "&nbsp;") with (AMP :: js "nbsp;").
    change (js "&lt;") with (AMP :: js "lt;").
    change (js "&gt;") with (AMP :: js "gt;").
    rewrite !stripPrefix_head by exact Ea. reflexivity. }
  simpl app.
  change (parseTextFrom O (c :: s))
    with (match reference (c :: s) with
          | Some (u, n) => u :: parseTextFrom n s
          | None =>
              if c =? NUL then parseTextFrom O s else c :: parseTextFrom O s
          end).
  rewrite R. now destruct (c =? NUL).
Qed.

Lemma decode_escapeHtml (s : jsstring) :
  parseTextFrom O (escapeHtml s) = dropNulls s.
Proof.
  induction s as [|c s IH]; [reflexivity|].
  unfold escapeHtml. simpl flat_map. fold (escapeHtml s).
  rewrite decode_escapeChar, IH. unfold dropNulls. simpl.
  now destruct (c =? NUL).
Qed.

(** A reference holds no carriage return and no line feed, so the line ends
    of the escaped text are those of the text. *)
Lemma normalizeNewlines_escapeHtml (afterCR : bool) (s : jsstring) :
  normalizeNewlines afterCR (escapeHtml s)
  = escapeHtml (normalizeNewlines afterCR s).
Proof.
  revert afterCR. induction s as [|c s IH]; intros afterCR; [reflexivity|].
  unfold escapeHtml at 1. simpl flat_map. fold (escapeHtml s).
  unfold escapeChar.
  destruct (c =? AMP) eqn:Ea.
  { apply N.eqb_eq in Ea; subst c. cbn -[escapeHtml]. now rewrite IH. }
  destruct (c =? NBSP) eqn:En.
  { apply N.eqb_eq in En; subst c. cbn -[escapeHtml]. now rewrite IH. }
  destruct (c =? LT) eqn:El.
  { apply N.eqb_eq in El; subst c. cbn -[escapeHtml]. now rewrite IH. }
  destruct (c =? GT) eqn:Eg.
  { apply N.eqb_eq in Eg; subst c. cbn -[escapeHtml]. now rewrite IH. }
  simpl app. cbn [normalizeNewlines].
  destruct (c =? CR) eqn:Ec.
  { rewrite IH. reflexivity. }
  destruct ((c =? 10) && afterCR) eqn:En'.
  { apply IH. }
  rewrite IH. unfold escapeHtml at 2. simpl flat_map. fold (escapeHtml (normalizeNewlines false s)).
  unfold escapeChar. now rewrite Ea, En, El, Eg.
Qed.

(** Reading escaped text back gives the text with its line ends made line
    feeds and without its U+0000. *)
Lemma parseText_escapeHtml (s : jsstring) :
  parseText (escapeHtml s) = dropNulls (normalizeNewlines false s).
Proof.
  unfold parseText. now rewrite normalizeNewlines_escapeHtml, decode_escapeHtml.
Qed.

Lemma normalizeNewlines_kept (s : jsstring) :
  forallb isKept s = true -> normalizeNewlines false s = s.
Proof.
  induction s as [|c s IH]; [reflexivity|].
  simpl. intros H. apply andb_true_iff in H as [Hc Hs].
  unfold isKept in Hc. apply andb_true_iff in Hc as [Hr _].
  apply negb_true_iff in Hr. rewrite Hr, andb_false_r. now rewrite (IH Hs).
Qed.

Lemma dropNulls_kept (s : jsstring) :
  forallb isKept s = true -> dropNulls s = s.
Proof.
  induction s as [|c s IH]; [reflexivity|].
  simpl. intros H. apply andb_true_iff in H as [Hc Hs].
  unfold isKept in Hc. apply andb_true_iff in Hc as [_ Hn].
  unfold dropNulls in *. simpl. rewrite Hn. now rewrite (IH Hs).
Qed.

Lemma parseText_escapeHtml_kept (s : jsstring) :
  forallb isKept s = true -> parseText (escapeHtml s) = s.
Proof.
  intros H. rewrite parseText_escapeHtml.
  now rewrite (normalizeNewlines_kept s H), (dropNulls_kept s H).
Qed.

(** X21: whatever the text, its escaped form holds no [<] and no [>]. *)
Lemma escapeHtml_no_angle (s : jsstring) :
  forallb (fun c => negb (c =? LT) && negb (c =? GT)) (escapeHtml s) = true.
Proof.
  induction s as [|c s IH]; [reflexivity|].
  unfold escapeHtml. simpl flat_map. fold (escapeHtml s).
  rewrite forallb_app, IH, andb_true_r.
  unfold escapeChar.
  destruct (c =? AMP); [reflexivity|].
  destruct (c =? NBSP); [reflexivity|].
  destruct (c =? LT) eqn:El; [reflexivity|].
  destruct (c =? GT) eqn:Eg; [reflexivity|].
  simpl. now rewrite El, Eg.
Qed.

(** C5: [escapeHtml] of [<b>&x</b>] writes every [<], [>] and [&] as its
    character reference, and reading the result back as text gives the
    string that was escaped. *)
Theorem escapeHtml_example_roundtrip :
  escapeHtml (js "<b>&x</b>") = js "&lt;b&gt;&amp;x&lt;/b&gt;"
  /\ parseText (escapeHtml (js "<b>&x</b>")) = js "<b>&x</b>".
Proof.
  split; [reflexivity | apply parseText_escapeHtml_kept; reflexivity].
Qed.

(** * Properties of [formatAnswer] *)

(** C6, as the code has it: for [**bold** and `code`] the fragment wraps
    [bold] in [strong] and [code] in [code]; it starts with a tag, so no
    paragraph is put around it. *)
Theorem formatAnswer_bold_and_code :
  formatAnswer (js "**bold** and `code`")
  = js "<strong>bold</strong> and <code>code</code>".
Proof. reflexivity. Qed.

(** C6, as stated, fails: the fragment is not wrapped in a paragraph. *)
Lemma bold_and_code_without_paragraph :
  ~ exists inner : jsstring,
      formatAnswer (js "**bold** and `code`") = js "<p>" ++ inner ++ js "</p>".
Proof.
  intros [inner H]. vm_compute in H. discriminate H.
Qed.

(** ** The walk of a global replacement *)
Section ReplaceFacts.

Variable matchAt : jsstring -> option (jsstring * nat).

(** Behind a match the walk starts afresh. *)
Lemma replaceFrom_skip (a s : jsstring) :
  replaceFrom matchAt (List.length a) (a ++ s) = replaceFrom matchAt O s.
Proof.
  induction a as [|x a IH]; simpl; [reflexivity | exact IH].
Qed.

Lemma replaceFrom_none (c : N) (s : jsstring) :
  matchAt (c :: s) = None ->
  replaceFrom matchAt O (c :: s) = c :: replaceFrom matchAt O s.
Proof. intros M. cbn [replaceFrom]. now rewrite M. Qed.

Lemma replaceFrom_match (c : N) (tl rest out : jsstring) :
  matchAt (c :: tl ++ rest) = Some (out, S (List.length tl)) ->
  replaceFrom matchAt O (c :: tl ++ rest) = out ++ replaceFrom matchAt O rest.
Proof.
  intros M. cbn [replaceFrom]. rewrite M. cbn [Nat.pred].
  now rewrite replaceFrom_skip.
Qed.

(** [quiet] code units are those at which the expression cannot match. *)
Variable quiet : N -> bool.
Hypothesis quiet_spec :
  forall c t, quiet c = true -> matchAt (c :: t) = None.

Lemma replaceFrom_quiet_prefix (a s : jsstring) :
  forallb quiet a = true ->
  replaceFrom matchAt O (a ++ s) = a ++ replaceFrom matchAt O s.
Proof.
  induction a as [|x a IH]; intros Q; [reflexivity|].
  simpl in Q. apply andb_true_iff in Q as [Qx Qa].
  simpl. rewrite (quiet_spec x (a ++ s) Qx). f_equal. now apply IH.
Qed.

Lemma replaceAll_quiet (a : jsstring) :
  forallb quiet a = true -> replaceAll matchAt a = a.
Proof.
  intros Q. unfold replaceAll.
  rewrite <- (app_nil_r a) at 1.
  rewrite replaceFrom_quiet_prefix by exact Q.
  simpl. apply app_nil_r.
Qed.

End ReplaceFacts.

Lemma span_stop (p : N -> bool) (a : jsstring) (c : N) (s : jsstring) :
  forallb p a = true -> p c = false -> span p (a ++ c :: s) = (a, c :: s).
Proof.
  intros A C. induction a as [|x a IH]; simpl.
  - now rewrite C.
  - simpl in A. apply andb_true_iff in A as [Ax Aa].
    now rewrite Ax, (IH Aa).
Qed.

Lemma forallb_weaken (p q : N -> bool) (s : jsstring) :
  (forall c, p c = true -> q c = true) ->
  forallb p s = true -> forallb q s = true.
Proof.
  intros I. induction s as [|c s IH]; simpl; [reflexivity|].
  intros H. apply andb_true_iff in H as [Hc Hs].
  now rewrite (I c Hc), (IH Hs).
Qed.

Lemma matchCodeBlock_quiet (c : N) (t : jsstring) :
  notBacktick c = true -> matchCodeBlock (c :: t) = None.
Proof.
  unfold notBacktick. intros H. apply negb_true_iff in H.
  unfold matchCodeBlock, fence. now rewrite (stripPrefix_head _ _ _ _ H).
Qed.

Lemma matchDelimited_quiet (d : N) (o cl b a : jsstring) (c : N) (t : jsstring) :
  negb (c =? d) = true -> matchDelimited d (d :: o) cl b a (c :: t) = None.
Proof.
  intros H. apply negb_true_iff in H.
  unfold matchDelimited. now rewrite (stripPrefix_head _ _ _ _ H).
Qed.

Lemma matchLiteral_quiet (d : N) (l out : jsstring) (c : N) (t : jsstring) :
  negb (c =? d) = true -> matchLiteral (d :: l) out (c :: t) = None.
Proof.
  intros H. apply negb_true_iff in H.
  unfold matchLiteral. now rewrite (stripPrefix_head _ _ _ _ H).
Qed.

Lemma codeBlocks_quiet (s : jsstring) :
  forallb notBacktick s = true -> codeBlocks s = s.
Proof. apply replaceAll_quiet, matchCodeBlock_quiet. Qed.

Lemma inlineCode_quiet (s : jsstring) :
  forallb notBacktick s = true -> inlineCode s = s.
Proof.
  apply replaceAll_quiet. intros c t. apply matchDelimited_quiet.
Qed.

Lemma bold_quiet (s : jsstring) : forallb notStar s = true -> bold s = s.
Proof.
  apply replaceAll_quiet. intros c t. apply matchDelimited_quiet.
Qed.

Lemma italic_quiet (s : jsstring) : forallb notStar s = true -> italic s = s.
Proof.
  apply replaceAll_quiet. intros c t. apply matchDelimited_quiet.
Qed.

Lemma paragraphBreaks_quiet (s : jsstring) :
  forallb notNewline s = true -> paragraphBreaks s = s.
Proof.
  apply replaceAll_quiet. intros c t. apply matchLiteral_quiet.
Qed.






(** The last rule works code unit by code unit. *)
Lemma lineBreaks_flat_map (s : jsstring) :
  lineBreaks s = flat_map lineBreakChar s.
Proof.
  unfold lineBreaks, replaceAll.
  induction s as [|c s IH]; [reflexivity|].
  cbn [replaceFrom flat_map]. unfold lineBreakChar at 1.
  destruct (c =? NL) eqn:E.
  - apply N.eqb_eq in E. subst c.
    change (matchLineBreak (NL :: s)) with (Some (js "<br>", 1%nat)).
    cbn [Nat.pred]. now rewrite IH.
  - assert (M : matchLineBreak (c :: s) = None).
    { apply matchLiteral_quiet. now rewrite E. }
    rewrite M. now rewrite IH.
Qed.

Lemma lineBreaks_app (a b : jsstring) :
  lineBreaks (a ++ b) = lineBreaks a ++ lineBreaks b.
Proof. rewrite !lineBreaks_flat_map. apply flat_map_app. Qed.

Lemma lineBreaks_quiet (s : jsstring) :
  forallb notNewline s = true -> lineBreaks s = s.
Proof.
  apply replaceAll_quiet. intros c t. apply matchLiteral_quiet.
Qed.

Lemma isPlain_notBacktick c : isPlain c = true -> notBacktick c = true.
Proof.
  unfold isPlain, notBacktick. intros H.
  apply andb_true_iff in H as [H _]. now apply andb_true_iff in H as [H _].
Qed.

Lemma isPlain_notStar c : isPlain c = true -> notStar c = true.
Proof.
  unfold isPlain, notStar. intros H.
  apply andb_true_iff in H as [H _]. now apply andb_true_iff in H as [_ H].
Qed.

Lemma isPlain_notNewline c : isPlain c = true -> notNewline c = true.
Proof.
  unfold isPlain, notNewline. intros H. now apply andb_true_iff in H as [_ H].
Qed.






(** * Properties of the handlers *)

Arguments js : simpl never.
Arguments tpl : simpl never.

Lemma blocked_true (question : jsstring) (s : State) :
  blocked question s = true
  <-> repositoryLoaded s = false \/ isLoading s = true \/ question = [].
Proof.
  unfold blocked. destruct question as [|c q], s as [[|] [|] p]; simpl;
    intuition congruence.
Qed.

Lemma blocked_false (question : jsstring) (s : State) :
  blocked question s = false ->
  question <> [] /\ repositoryLoaded s = true /\ isLoading s = false.
Proof.
  unfold blocked. destruct question, s as [[|] [|] p]; simpl;
    intuition congruence.
Qed.

Lemma sendMessage_unfold (w : World) :
  sendMessage w
  = if blocked (trim (messageInput_value (doc w))) (state w)
    then (Normal tt, w)
    else
      (addMessage (js "user")
         (js "<p>" ++ escapeHtml (trim (messageInput_value (doc w))) ++ js "</p>");;
       write (on_doc (set_messageInput_value []));;
       autoResizeTextarea;;
       typingId <- showTypingIndicator;;
       write (on_state (set_isLoading true));;
       disableSend;;
       fetch (PostAsk (trim (messageInput_value (doc w))) TOP_K)
             (AwaitAsk typingId)) w.
Proof.
  unfold sendMessage at 1. unfold bind at 1. unfold read at 1.
  unfold bind at 1. unfold read at 1.
  destruct (blocked _ _); reflexivity.
Qed.

(** C1: [sendMessage] does nothing at all (the world it leaves is the world
    it found: no request, no message, no change of state) unless a
    repository is loaded, no question is in flight and the trimmed question
    is not empty. *)
Theorem sendMessage_noop_unless_ready (w : World) :
  repositoryLoaded (state w) = false
  \/ isLoading (state w) = true
  \/ trim (messageInput_value (doc w)) = [] ->
  sendMessage w = (Normal tt, w) /\ handle SendClick w = Some w.
Proof.
  intros H. apply blocked_true in H.
  assert (E : sendMessage w = (Normal tt, w)).
  { rewrite sendMessage_unfold. now rewrite H. }
  split; [exact E|].
  unfold handle, exec. now rewrite E.
Qed.

Lemma sendMessage_noop_unless_ready_witness :
  let w := on_doc (set_messageInput_value (js "  ")) (boot dom0 1000) in
  sendMessage w = (Normal tt, w) /\ handle SendClick w = Some w.
Proof.
  intros w.
  apply (sendMessage_noop_unless_ready w). left. reflexivity.
Defined.

(** The [finally] block of [sendMessage] runs behind every reply. *)
Lemma sendMessage_resume_done
    (typingId : jsstring) (r : Reply AskData) (w : World) :
  isLoading (state (exec (sendMessage_resume typingId r) w)) = false
  /\ sendBtn_disabled (doc (exec (sendMessage_resume typingId r) w)) = false.
Proof.
  unfold exec, sendMessage_resume, tryFinally.
  match goal with |- context [tryCatch ?b ?h w] =>
    destruct (tryCatch b h w) as [c w1]
  end.
  split; reflexivity.
Qed.

(** C3: whatever the reply to a question is, the rest of [sendMessage]
    completes, and it leaves [isLoading] false and the send button
    enabled. *)
Theorem sendMessage_resume_restores
    (typingId : jsstring) (r : Reply AskData) (w : World) :
  let w' := exec (sendMessage_resume typingId r) w in
  fst (sendMessage_resume typingId r w) = Normal tt
  /\ isLoading (state w') = false
  /\ sendBtn_disabled (doc w') = false.
Proof.
  unfold exec, sendMessage_resume, tryFinally.
  match goal with |- context [tryCatch ?b ?h w] =>
    assert (C : fst (tryCatch b h w) = Normal tt);
    [| destruct (tryCatch b h w) as [c w1] ]
  end.
  - unfold tryCatch.
    match goal with |- context [match ?b w with _ => _ end] =>
      destruct (b w) as [[[]|m] w1] end; [reflexivity|].
    unfold bind. destruct (removeTypingIndicator typingId w1) as [[[]|m'] w2] eqn:R.
    + reflexivity.
    + exfalso. unfold removeTypingIndicator, bind, read in R.
      destruct (getElementById _ _ _); discriminate R.
  - simpl in C. subst c. repeat split.
Qed.

(** ** Scripts and the relations that they respect *)

Section Respects.

Variable R : World -> World -> Prop.
Hypothesis R_refl : forall w, R w w.
Hypothesis R_trans : forall a b c, R a b -> R b c -> R a c.

Lemma respects_ret {A} (a : A) : respects R (ret a).
Proof. intros w. apply R_refl. Qed.

Lemma respects_throw {A} (m : jsstring) : respects R (@throw A m).
Proof. intros w. apply R_refl. Qed.

Lemma respects_read {A} (f : World -> A) : respects R (read f).
Proof. intros w. apply R_refl. Qed.

Lemma respects_write (f : World -> World) :
  (forall w, R w (f w)) -> respects R (write f).
Proof. intros F w. apply F. Qed.

Lemma respects_bind {A B} (c : Script A) (k : A -> Script B) :
  respects R c -> (forall a, respects R (k a)) -> respects R (bind c k).
Proof.
  intros C K w. unfold bind. specialize (C w).
  destruct (c w) as [[a|m] w1]; simpl in C |- *; [|exact C].
  exact (R_trans _ _ _ C (K a w1)).
Qed.

Lemma respects_tryCatch {A} (c : Script A) (h : jsstring -> Script A) :
  respects R c -> (forall m, respects R (h m)) -> respects R (tryCatch c h).
Proof.
  intros C H w. unfold tryCatch. specialize (C w).
  destruct (c w) as [[a|m] w1]; simpl in C |- *; [exact C|].
  exact (R_trans _ _ _ C (H m w1)).
Qed.

Lemma respects_tryFinally {A} (c : Script A) (f : Script unit) :
  respects R c -> respects R f -> respects R (tryFinally c f).
Proof.
  intros C F w. unfold tryFinally. specialize (C w).
  destruct (c w) as [r w1]. specialize (F w1).
  destruct (f w1) as [[u|m] w2]; simpl in *; exact (R_trans _ _ _ C F).
Qed.

Lemma respects_if {A} (b : bool) (c d : Script A) :
  respects R c -> respects R d -> respects R (if b then c else d).
Proof. now destruct b. Qed.

End Respects.

(** A script is taken apart down to its reads and writes; [base] closes the
    scripts that have a lemma of their own and [leaf] the writes. *)
Ltac respects_steps refl trans base leaf :=
  repeat first
    [ base
    | apply (respects_ret _ refl)
    | apply (respects_throw _ refl)
    | apply (respects_read _ refl)
    | apply respects_write; intro; leaf
    | apply respects_if
    | apply (respects_tryFinally _ trans)
    | apply (respects_tryCatch _ trans); [|intro]
    | match goal with
      | |- respects _ (match ?x with _ => _ end) => destruct x
      end
    | apply (respects_bind _ trans); [|intro]
    | progress unfold awaitReply, updateStats, basenameOf ].

(** ** What every event keeps

    A relation between worlds that is reflexive and transitive, that does
    not look at the fields which the events themselves write, and that every
    handler respects, holds between a world and any world that events lead to
    from it. *)
Section EveryEvent.

Variable R : World -> World -> Prop.
Hypothesis R_refl : forall w, R w w.
Hypothesis R_trans : forall a b c, R a b -> R b c -> R a c.
Hypothesis R_path : forall w v, R w (on_doc (set_repoPath_value v) w).
Hypothesis R_message : forall w v, R w (on_doc (set_messageInput_value v) w).
Hypothesis R_inflight : forall w t l, takeTask t (inflight w) = Some l ->
                                      R w (set_inflight l w).
Hypothesis R_timers : forall w d l, takeTimer d (timers w) = Some l ->
                                    R w (set_timers l w).
Hypothesis R_clock : forall w t, R w (set_clock t w).
Hypothesis R_loadRepository : respects R loadRepository.
Hypothesis R_sendMessage : respects R sendMessage.
Hypothesis R_quickClick : forall q, respects R (quickClick q).
Hypothesis R_checkStatus_resume : forall r, respects R (checkStatus_resume r).
Hypothesis R_loadRepository_resume :
  forall p r, respects R (loadRepository_resume p r).
Hypothesis R_sendMessage_resume :
  forall i r, respects R (sendMessage_resume i r).
Hypothesis R_revertStatus : respects R revertStatus.

Lemma resume_respects (t : Task) (c : Script unit) (w w' : World) :
  respects R c -> resume t c w = Some w' -> R w w'.
Proof.
  intros C. unfold resume.
  destruct (takeTask t (inflight w)) as [l|] eqn:T; [|discriminate].
  intros H. injection H as <-.
  exact (R_trans _ _ _ (R_inflight w t l T) (C (set_inflight l w))).
Qed.

Lemma handle_respects (e : Event) (w w' : World) :
  handle e w = Some w' -> R w w'.
Proof.
  destruct e as [text|text| | |q|r|path r|id r|due|ms]; simpl.
  - intros H. injection H as <-. apply R_path.
  - intros H. injection H as <-. apply R_message.
  - intros H. injection H as <-. apply R_loadRepository.
  - intros H. injection H as <-. apply R_sendMessage.
  - intros H. injection H as <-. apply R_quickClick.
  - apply resume_respects, R_checkStatus_resume.
  - apply resume_respects, R_loadRepository_resume.
  - apply resume_respects, R_sendMessage_resume.
  - destruct (due <=? clock w); [|discriminate].
    destruct (takeTimer due (timers w)) as [l|] eqn:T; [|discriminate].
    intros H. injection H as <-.
    exact (R_trans _ _ _ (R_timers w due l T) (R_revertStatus (set_timers l w))).
  - intros H. injection H as <-. apply R_clock.
Qed.

Lemma run_respects (es : list Event) (w w' : World) :
  run es w = Some w' -> R w w'.
Proof.
  revert w. induction es as [|e es IH]; intros w; simpl.
  - intros H. injection H as <-. apply R_refl.
  - destruct (handle e w) as [w1|] eqn:H; [|discriminate].
    intros H'. exact (R_trans _ _ _ (handle_respects e w w1 H) (IH w1 H')).
Qed.

End EveryEvent.

(** ** [sendMessage], step by step *)

Lemma sendMessage_ready (w : World) :
  blocked (trim (messageInput_value (doc w))) (state w) = false ->
  sendMessage w = (Normal tt, asked w).
Proof.
  intros H. rewrite sendMessage_unfold, H.
  destruct w as [s d c t i h]. reflexivity.
Qed.

Lemma addMessage_assistant (content : jsstring) (w : World) :
  addMessage (js "assistant") content w
  = (Normal tt,
     record (Appended (assistantElement content))
       (on_doc (fun d => set_messages (messages d ++ [assistantElement content]) d)
          w)).
Proof. reflexivity. Qed.

Lemma removeTypingIndicator_found (id : jsstring) (found : Found) (w : World) :
  getElementById (parseIds (doc w)) id (messages (doc w)) = Some found ->
  removeTypingIndicator id w
  = (Normal tt,
     record (removalOf id found)
       (on_doc (fun d =>
                  set_messages
                    (removeElement (parseIds d) (cutMarkup d) id (messages d)) d)
          w)).
Proof.
  intros H. unfold removeTypingIndicator, bind, read. now rewrite H.
Qed.

Lemma removeTypingIndicator_absent (id : jsstring) (w : World) :
  getElementById (parseIds (doc w)) id (messages (doc w)) = None ->
  removeTypingIndicator id w = (Normal tt, w).
Proof.
  intros H. unfold removeTypingIndicator, bind, read. now rewrite H.
Qed.

Lemma removeElement_absent (parse : jsstring -> list jsstring)
    (cut : jsstring -> jsstring -> jsstring) (id : jsstring)
    (l : list Element) :
  getElementById parse id l = None -> removeElement parse cut id l = l.
Proof.
  induction l as [|e l IH]; [reflexivity|].
  simpl. destruct (hasId id e); [discriminate|].
  destruct (mentions parse id e); [discriminate|].
  intros H. now rewrite (IH H).
Qed.




(** ** Ids, questions in flight, timers *)

Lemma ids_app (a b : list Element) : ids (a ++ b) = ids a ++ ids b.
Proof. apply flat_map_app. Qed.

Lemma asks_app (a b : list Task) : asks (a ++ b) = asks a ++ asks b.
Proof. apply flat_map_app. Qed.



Lemma sameFlight_refl (w : World) : sameFlight w w.
Proof. repeat split; auto. Qed.

Lemma sameFlight_trans (a b c : World) :
  sameFlight a b -> sameFlight b c -> sameFlight a c.
Proof.
  intros [A1 [A2 A3]] [B1 [B2 B3]]. repeat split; try congruence. auto.
Qed.

Ltac sameFlight_leaf :=
  idtac;
  match goal with
  | |- sameFlight ?w _ =>
      destruct w as [[? ? ?] ? ? ? ? ?]; unfold sameFlight; simpl;
      rewrite ?asks_app, ?ids_app; simpl; rewrite ?app_nil_r;
      split; [reflexivity|]; split; [reflexivity|]; intros ? ?;
      solve [assumption | apply in_or_app; left; assumption]
  end.

Ltac sameFlight_steps :=
  respects_steps sameFlight_refl sameFlight_trans ltac:(fail)
    ltac:(sameFlight_leaf).

Lemma sameFlight_loadRepository : respects sameFlight loadRepository.
Proof. unfold loadRepository. sameFlight_steps. Qed.

Lemma sameFlight_checkStatus_resume (r : Reply StatusData) :
  respects sameFlight (checkStatus_resume r).
Proof. unfold checkStatus_resume. sameFlight_steps. Qed.

Lemma sameFlight_loadRepository_resume (path : jsstring) (r : Reply LoadData) :
  respects sameFlight (loadRepository_resume path r).
Proof. unfold loadRepository_resume. sameFlight_steps. Qed.

Lemma sameFlight_revertStatus : respects sameFlight revertStatus.
Proof. unfold revertStatus. sameFlight_steps. Qed.

Lemma askFrame_refl (w : World) : askFrame w w.
Proof. repeat split. Qed.

Lemma askFrame_trans (a b c : World) :
  askFrame a b -> askFrame b c -> askFrame a c.
Proof. unfold askFrame. intuition congruence. Qed.

Ltac askFrame_leaf :=
  idtac;
  match goal with
  | |- askFrame ?w _ =>
      destruct w as [[? ? ?] ? ? ? ? ?]; unfold askFrame; simpl;
      repeat split; reflexivity
  end.

Lemma askFrame_sendMessage_resume (id : jsstring) (r : Reply AskData) :
  respects askFrame (sendMessage_resume id r).
Proof.
  unfold sendMessage_resume.
  respects_steps askFrame_refl askFrame_trans ltac:(fail) ltac:(askFrame_leaf).
Qed.











(** ** Handlers in flight *)

Lemma task_eqb_eq (a b : Task) : task_eqb a b = true <-> a = b.
Proof.
  destruct a, b; simpl; try (split; [discriminate | congruence]);
    try (split; reflexivity);
    rewrite jseqb_eq; split; congruence.
Qed.

Lemma takeTask_In (t : Task) (l : list Task) :
  In t l -> exists l', takeTask t l = Some l'.
Proof.
  induction l as [|x l IH]; [intros []|].
  intros [E|I]; simpl.
  - subst x. rewrite (proj2 (task_eqb_eq t t) eq_refl). eauto.
  - destruct (task_eqb t x); [eauto|].
    destruct (IH I) as [l' E]. rewrite E. eauto.
Qed.

Lemma takeTask_asks (t : Task) (l l' : list Task) :
  takeTask t l = Some l' ->
  exists a b, asks l = a ++ askOf t ++ b /\ asks l' = a ++ b.
Proof.
  revert l'. induction l as [|x l IH]; intros l'; [discriminate|].
  simpl. destruct (task_eqb t x) eqn:E.
  - apply task_eqb_eq in E. subst x. intros H. injection H as <-.
    exists [], (asks l). split; reflexivity.
  - destruct (takeTask t l) as [r|]; [|discriminate].
    intros H. injection H as <-.
    destruct (IH r eq_refl) as [a [b [A B]]].
    exists (askOf x ++ a), b.
    change (asks (x :: l)) with (askOf x ++ asks l).
    change (asks (x :: r)) with (askOf x ++ asks r).
    rewrite A, B. now rewrite <- !app_assoc.
Qed.

Lemma takeTask_other (t : Task) (l l' : list Task) :
  askOf t = [] -> takeTask t l = Some l' -> asks l' = asks l.
Proof.
  intros T H. destruct (takeTask_asks t l l' H) as [a [b [A B]]].
  rewrite A, B, T. reflexivity.
Qed.

Lemma takeTask_ask (id id' : jsstring) (l l' : list Task) :
  takeTask (AwaitAsk id) l = Some l' ->
  asks l = [id'] -> id' = id /\ asks l' = [].
Proof.
  intros H S. destruct (takeTask_asks _ l l' H) as [a [b [A B]]].
  rewrite A in S. simpl in S.
  destruct a as [|z a].
  - simpl in S. injection S as -> ->. now rewrite B.
  - simpl in S. injection S as _ S. now destruct a.
Qed.

(** ** The consistency is an invariant *)

Lemma sameFlight_consistent (w w' : World) :
  sameFlight w w' -> consistent w -> consistent w'.
Proof.
  unfold consistent. intros [A [L I]]. rewrite L, A.
  destruct (isLoading (state w)); [|auto].
  intros [id [E J]]. exists id. auto.
Qed.

Lemma asked_consistent (w : World) :
  isLoading (state w) = false -> consistent w -> consistent (asked w).
Proof.
  unfold consistent. intros L A. rewrite L in A.
  unfold asked. simpl. rewrite !ids_app, asks_app, A. simpl.
  exists (js "typing-" ++ decimal (clock w)). split; [reflexivity|].
  apply in_or_app. right. now left.
Qed.

Lemma sendMessage_consistent (w : World) :
  consistent w -> consistent (exec sendMessage w).
Proof.
  intros C. unfold exec.
  destruct (blocked (trim (messageInput_value (doc w))) (state w)) eqn:B.
  - rewrite sendMessage_unfold, B. exact C.
  - rewrite (sendMessage_ready w B). simpl.
    apply asked_consistent; [|exact C]. now apply blocked_false in B.
Qed.

(** In a consistent world the question that a reply belongs to is the one
    in flight: [isLoading] is true and the indicator is in the list. *)
Lemma takeTask_consistent (id : jsstring) (w : World) (l : list Task) :
  consistent w ->
  takeTask (AwaitAsk id) (inflight w) = Some l ->
  isLoading (state w) = true
  /\ asks l = []
  /\ In id (ids (messages (doc w))).
Proof.
  unfold consistent. intros C T.
  destruct (isLoading (state w)).
  - destruct C as [id' [A I]].
    destruct (takeTask_ask id id' _ l T A) as [-> E]. auto.
  - destruct (takeTask_asks _ _ _ T) as [a [b [E _]]].
    rewrite E in C. simpl in C. now destruct a.
Qed.

Lemma askReply_consistent (id : jsstring) (r : Reply AskData) (w : World)
    (l : list Task) :
  consistent w ->
  takeTask (AwaitAsk id) (inflight w) = Some l ->
  consistent (exec (sendMessage_resume id r) (set_inflight l w)).
Proof.
  intros C T. destruct (takeTask_consistent id w l C T) as [_ [A _]].
  unfold consistent.
  destruct (sendMessage_resume_done id r (set_inflight l w)) as [L _].
  rewrite L.
  destruct (askFrame_sendMessage_resume id r (set_inflight l w)) as [I _].
  unfold exec. rewrite I. exact A.
Qed.

Lemma resume_other_consistent (t : Task) (c : Script unit) (w w' : World) :
  askOf t = [] -> respects sameFlight c ->
  consistent w -> resume t c w = Some w' -> consistent w'.
Proof.
  intros T K C. unfold resume.
  destruct (takeTask t (inflight w)) as [l|] eqn:E; [|discriminate].
  intros H. injection H as <-.
  apply (sameFlight_consistent (set_inflight l w)); [apply K|].
  apply (sameFlight_consistent w); [|exact C].
  repeat split; simpl; auto. exact (takeTask_other t _ l T E).
Qed.

Lemma handle_consistent (e : Event) (w w' : World) :
  consistent w -> handle e w = Some w' -> consistent w'.
Proof.
  intros C. destruct e as [text|text| | |q|r|path r|id r|due|ms]; simpl.
  - intros H. injection H as <-. exact C.
  - intros H. injection H as <-. exact C.
  - intros H. injection H as <-.
    exact (sameFlight_consistent _ _ (sameFlight_loadRepository w) C).
  - intros H. injection H as <-. now apply sendMessage_consistent.
  - intros H. injection H as <-. unfold exec, quickClick, bind, read.
    destruct q as [q|]; [|exact C].
    destruct (repositoryLoaded (state w) && truthy q); [|exact C].
    unfold write. apply sendMessage_consistent. exact C.
  - apply resume_other_consistent;
      [reflexivity | apply sameFlight_checkStatus_resume | exact C].
  - apply resume_other_consistent;
      [reflexivity | apply sameFlight_loadRepository_resume | exact C].
  - unfold resume.
    destruct (takeTask (AwaitAsk id) (inflight w)) as [l|] eqn:T; [|discriminate].
    intros W. injection W as <-. now apply askReply_consistent.
  - destruct (due <=? clock w); [|discriminate].
    destruct (takeTimer due (timers w)) as [l|]; [|discriminate].
    intros H. injection H as <-.
    exact (sameFlight_consistent _ _ (sameFlight_revertStatus (set_timers l w)) C).
  - intros H. injection H as <-. exact C.
Qed.

Lemma run_consistent (es : list Event) (w w' : World) :
  consistent w -> run es w = Some w' -> consistent w'.
Proof.
  revert w. induction es as [|e es IH]; intros w C; simpl.
  - intros H. now injection H as <-.
  - destruct (handle e w) as [w1|] eqn:H; [|discriminate].
    apply IH. exact (handle_consistent e w w1 C H).
Qed.

Lemma boot_consistent (d : Dom) (now : N) : consistent (boot d now).
Proof. reflexivity. Qed.

(** Every world the page can be in is consistent. *)
Lemma reachable_consistent (w : World) : reachable w -> consistent w.
Proof.
  intros [d [now [es [I R]]]].
  exact (run_consistent es _ w (boot_consistent d now) R).
Qed.


(** ** The typing indicator *)









(** ** Loading a repository *)

Lemma loadRepository_ready (w : World) :
  trim (repoPath_value (doc w)) <> [] ->
  loadRepository w
  = (Normal tt,
     let path := trim (repoPath_value (doc w)) in
     mkWorld (state w)
       (set_repoStatus (js "repo-status " ++ js "loading") (js "Scanning files...")
          (set_loadingOverlay_hidden false
             (set_loadingText_text (js "Loading repository...") (doc w))))
       (clock w) (timers w)
       (inflight w ++ [AwaitLoad path])
       (history w ++ [Fetched (PostLoad path)])).
Proof.
  intros H. unfold loadRepository. unfold bind at 1. unfold read at 1.
  destruct (trim (repoPath_value (doc w))) as [|c p]; [contradiction|].
  destruct w as [s d c' t i h]. reflexivity.
Qed.

Lemma loadRepository_no_path (w : World) :
  trim (repoPath_value (doc w)) = [] ->
  loadRepository w = showError (js "Please enter a repository path") w.
Proof.
  intros H. unfold loadRepository. unfold bind at 1. unfold read at 1.
  now rewrite H.
Qed.

(** C4, as the code has it: for a path that is not empty once trimmed,
    [loadRepository] sends the request and leaves the state object alone.
    A reply with a success status and the promised [stats] then sets
    [repositoryLoaded], records the path and enables the chat; a rejected
    request and a reply with an error status leave the state object, so
    [repositoryLoaded] and [currentPath], as it was.  But a reply with a
    success status and no [stats] is reported as a failed load (error
    status, failure message, chat controls untouched) after the state
    object has been written: [repositoryLoaded] is true and [currentPath]
    is the new path. *)
Theorem loadRepository_outcome (w : World) :
  trim (repoPath_value (doc w)) <> [] ->
  let path := trim (repoPath_value (doc w)) in
  let w1 := exec loadRepository w in
  (state w1 = state w
   /\ history w1 = history w ++ [Fetched (PostLoad path)]
   /\ In (AwaitLoad path) (inflight w1))
  /\
  (forall (w2 : World) (r : Reply LoadData),
   In (AwaitLoad path) (inflight w2) ->
   exists w3 : World,
     handle (LoadReply path r) w2 = Some w3
     /\ (loaded r = true ->
         repositoryLoaded (state w3) = true
         /\ currentPath (state w3) = Some path
         /\ repoStatus_className (doc w3) = js "repo-status " ++ js "loaded"
         /\ messageInput_disabled (doc w3) = false
         /\ sendBtn_disabled (doc w3) = false
         /\ forall question,
              blocked question (state w3)
              = negb (truthy question) || isLoading (state w2))
     /\ (failed r = true ->
         state w3 = state w2
         /\ repoStatus_className (doc w3) = js "repo-status " ++ js "error")
     /\ (loaded r = false -> failed r = false ->
         repoStatus_className (doc w3) = js "repo-status " ++ js "error"
         /\ repoStatus_text (doc w3) = typeErrorMessage (js "vectors")
         /\ messages (doc w3)
            = messages (doc w2)
              ++ [assistantElement
                    (loadFailureHtml (typeErrorMessage (js "vectors")))]
         /\ messageInput_disabled (doc w3) = messageInput_disabled (doc w2)
         /\ sendBtn_disabled (doc w3) = sendBtn_disabled (doc w2)
         /\ repositoryLoaded (state w3) = true
         /\ currentPath (state w3) = Some path)).
Proof.
  intros H path w1. split.
  - unfold w1, exec. rewrite (loadRepository_ready w H). simpl.
    repeat split. apply in_or_app. right. now left.
  - intros w2 r I. destruct (takeTask_In _ _ I) as [l T].
    unfold handle, resume. rewrite T. eexists. split; [reflexivity|].
    destruct w2 as [[rl il cp] d c t i h].
    destruct r as [m | [|] [detail msg [[stats|]|]]];
      (split; [|split]); intros K; try intros K';
      try discriminate K; try discriminate K';
      repeat split; try reflexivity;
      intros q; destruct q, il; reflexivity.
Qed.

Lemma loadRepository_outcome_witness :
  let w := on_doc (set_repoPath_value (js " ./repo ")) (boot dom0 1000) in
  let path := js "./repo" in
  let w1 := exec loadRepository w in
  (state w1 = state w
   /\ history w1 = history w ++ [Fetched (PostLoad path)]
   /\ In (AwaitLoad path) (inflight w1))
  /\ (exists w3 : World,
        handle (LoadReply path
                  (Received true (mkLoadData None (Some (js "ok"))
                                    (Some (Some (mkRepoStats 1 2 3)))))) w1
        = Some w3
        /\ repositoryLoaded (state w3) = true
        /\ currentPath (state w3) = Some path)
  /\ (exists w3 : World,
        handle (LoadReply path
                  (Received false (mkLoadData (Some (js "path not found"))
                                     None None))) w1
        = Some w3
        /\ state w3 = state w1)
  /\ (exists w3 : World,
        handle (LoadReply path
                  (Received true (mkLoadData None (Some (js "ok")) None))) w1
        = Some w3
        /\ repoStatus_className (doc w3) = js "repo-status " ++ js "error"
        /\ repositoryLoaded (state w3) = true
        /\ currentPath (state w3) = Some path).
Proof.
  intros w path w1.
  assert (H : trim (repoPath_value (doc w)) <> []) by (vm_compute; discriminate).
  pose proof (loadRepository_outcome w H) as [S R].
  assert (I : In (AwaitLoad path) (inflight w1))
    by (vm_compute; right; left; reflexivity).
  split; [exact S|]. split; [|split].
  - destruct (R w1 (Received true (mkLoadData None (Some (js "ok"))
                                     (Some (Some (mkRepoStats 1 2 3))))) I)
      as [w3 [E [L _]]].
    exists w3. split; [exact E|].
    destruct (L eq_refl) as [A [B _]]. split; [exact A | exact B].
  - destruct (R w1 (Received false (mkLoadData (Some (js "path not found"))
                                      None None)) I)
      as [w3 [E [_ [F _]]]].
    exists w3. split; [exact E|]. exact (proj1 (F eq_refl)).
  - destruct (R w1 (Received true (mkLoadData None (Some (js "ok")) None)) I)
      as [w3 [E [_ [_ F]]]].
    exists w3. split; [exact E|].
    destruct (F eq_refl eq_refl) as [A [_ [_ [_ [_ [B C]]]]]].
    split; [exact A|]. split; [exact B | exact C].
Defined.

(** C4 fails in a session of its own: the page is fresh, the user enters a
    path and clicks; the service answers with a success status and a body
    without [stats].  The page reports a failed load and leaves the chat
    controls disabled, but [repositoryLoaded] is now true and [currentPath]
    is the path, and a click on a quick-question button sends a question. *)
Lemma load_reported_failed_yet_loaded :
  let w := after [PathInput (js "./repo"); LoadClick] (boot dom0 1000) in
  let r := Received true (mkLoadData None (Some (js "ok")) None) in
  runPage [PathInput (js "./repo"); LoadClick] (boot dom0 1000) = Some w
  /\ reportedFailed r = true
  /\ repositoryLoaded (state w) = false
  /\ currentPath (state w) = None
  /\ exists w' : World,
       deliver (LoadReply (js "./repo") r) w = Some w'
       /\ repoStatus_className (doc w') = js "repo-status error"
       /\ repoStatus_text (doc w')
          = js "Cannot read properties of undefined (reading 'vectors')"
       /\ messages (doc w')
          = [assistantElement
               (loadFailureHtml
                  (js "Cannot read properties of undefined (reading 'vectors')"))]
       /\ messageInput_disabled (doc w') = true
       /\ sendBtn_disabled (doc w') = true
       /\ repositoryLoaded (state w') = true
       /\ currentPath (state w') = Some (js "./repo")
       /\ exists w'' : World,
            deliver (QuickClick (Some (js "Explain the file structure"))) w'
            = Some w''
            /\ requests (history w'')
               = [GetStatus; PostLoad (js "./repo");
                  PostAsk (js "Explain the file structure") 5].
Proof.
  intros w r. split; [vm_compute; reflexivity|].
  split; [reflexivity|]. split; [vm_compute; reflexivity|].
  split; [vm_compute; reflexivity|].
  exists (after [LoadReply (js "./repo") r] w).
  repeat (split; [vm_compute; reflexivity|]).
  exists (after [LoadReply (js "./repo") r;
                 QuickClick (Some (js "Explain the file structure"))] w).
  split; vm_compute; reflexivity.
Qed.

(** X20: a reply with a success status whose body lacks [stats] is neither: the
    state object is already written when reading [stats.vectors] throws, and
    the handler then reports a failure. *)
Lemma loadRepository_resume_without_stats (path : jsstring) (w : World)
    (detail message : option jsstring) :
  let w' := exec (loadRepository_resume path
                    (Received true (mkLoadData detail message None))) w in
  repositoryLoaded (state w') = true
  /\ currentPath (state w') = Some path
  /\ repoStatus_className (doc w') = js "repo-status " ++ js "error"
  /\ messageInput_disabled (doc w') = messageInput_disabled (doc w).
Proof. destruct w as [s d c t i h]. repeat split. Qed.

(** ** Timers *)









(** ** Quick-question buttons *)

Lemma sameButMessageField_refl (d : Dom) : sameButMessageField d d.
Proof. destruct d. reflexivity. Qed.

(** C9: with a repository loaded, a click on a quick-question button does
    what typing the question of the button into the message field and
    submitting it does: the two runs leave the same state object, the same
    message list, the same history of appended messages and requests, the
    same handlers in flight, the same timers, and the same document but for
    the text of the message field; when the question is not the empty
    string they leave the same world.  With no repository loaded the click
    does nothing. *)
Theorem quickClick_as_typed (question : jsstring) (w : World) :
  (repositoryLoaded (state w) = true ->
   exists a b : World,
     handle (QuickClick (Some question)) w = Some a
     /\ run [MessageInput question; SendClick] w = Some b
     /\ state a = state b
     /\ messages (doc a) = messages (doc b)
     /\ history a = history b
     /\ inflight a = inflight b
     /\ timers a = timers b
     /\ clock a = clock b
     /\ sameButMessageField (doc a) (doc b)
     /\ (question <> [] -> a = b))
  /\ (repositoryLoaded (state w) = false ->
      handle (QuickClick (Some question)) w = Some w).
Proof.
  split.
  - intros L. destruct question as [|c q].
    + exists w, (on_doc (set_messageInput_value []) w). split.
      { unfold handle, exec, quickClick. unfold bind at 1. unfold read at 1.
        rewrite L. reflexivity. }
      split.
      { unfold run, handle. unfold exec at 2. unfold autoResizeTextarea, ret.
        cbn [snd]. unfold exec. rewrite sendMessage_unfold.
        assert (B : blocked
                      (trim (messageInput_value
                               (doc (on_doc (set_messageInput_value []) w))))
                      (state (on_doc (set_messageInput_value []) w)) = true).
        { apply blocked_true. right. right. destruct w as [s d c t i h].
          reflexivity. }
        now rewrite B. }
      destruct w as [s d c t i h]. repeat split.
      intros N. now destruct N.
    + exists (exec sendMessage (on_doc (set_messageInput_value (c :: q)) w)),
             (exec sendMessage (on_doc (set_messageInput_value (c :: q)) w)).
      split.
      { unfold handle, exec, quickClick. unfold bind at 1. unfold read at 1.
        rewrite L. reflexivity. }
      split; [reflexivity|]. repeat split. apply sameButMessageField_refl.
  - intros L. unfold handle, exec, quickClick.
    unfold bind at 1. unfold read at 1. rewrite L. reflexivity.
Qed.

Lemma quickClick_as_typed_witness :
  let loadedWorld :=
    after [PathInput (js "./repo"); LoadClick;
           LoadReply (js "./repo")
             (Received true (mkLoadData None (Some (js "ok"))
                               (Some (Some (mkRepoStats 1 2 3)))))]
          (boot dom0 1000) in
  let question := js "Explain the file structure" in
  (exists a b : World,
     handle (QuickClick (Some question)) loadedWorld = Some a
     /\ run [MessageInput question; SendClick] loadedWorld = Some b
     /\ state a = state b
     /\ messages (doc a) = messages (doc b)
     /\ history a = history b
     /\ inflight a = inflight b
     /\ timers a = timers b
     /\ clock a = clock b
     /\ sameButMessageField (doc a) (doc b)
     /\ (question <> [] -> a = b))
  /\ handle (QuickClick (Some question)) (boot dom0 1000)
     = Some (boot dom0 1000).
Proof.
  intros loadedWorld question. split.
  - apply (proj1 (quickClick_as_typed question loadedWorld)).
    vm_compute. reflexivity.
  - apply (proj2 (quickClick_as_typed question (boot dom0 1000))).
    vm_compute. reflexivity.
Defined.

(** ** Failure reasons in the conversation log *)

Lemma sendMessage_resume_failed (id : jsstring) (r : Reply AskData) (w : World) :
  failed r = true ->
  messages (doc (exec (sendMessage_resume id r) w))
  = removeElement (parseIds (doc w)) (cutMarkup (doc w)) id (messages (doc w))
    ++ [assistantElement
          (askErrorHtml (reason ask_detail (js "Failed to get answer") r))].
Proof.
  intros F.
  assert (E : sendMessage_resume id r w
              = tryFinally
                  (removeTypingIndicator id;;
                   addMessage (js "assistant")
                     (askErrorHtml
                        (reason ask_detail (js "Failed to get answer") r)))
                  (write (on_state (set_isLoading false));; enableSend) w).
  { destruct r as [m | [|] d]; [reflexivity | discriminate F | reflexivity]. }
  unfold exec. rewrite E. unfold tryFinally. unfold bind at 1.
  destruct (getElementById (parseIds (doc w)) id (messages (doc w)))
    as [found|] eqn:G.
  - rewrite (removeTypingIndicator_found id found w G), addMessage_assistant.
    destruct w as [s d c t i h]. reflexivity.
  - rewrite (removeTypingIndicator_absent id w G), addMessage_assistant.
    rewrite (removeElement_absent _ _ id _ G).
    destruct w as [s d c t i h]. reflexivity.
Qed.

Lemma loadRepository_resume_failed (path : jsstring) (r : Reply LoadData)
    (w : World) :
  failed r = true ->
  messages (doc (exec (loadRepository_resume path r) w))
  = messages (doc w)
    ++ [assistantElement
          (loadFailureHtml
             (reason load_detail (js "Failed to load repository") r))].
Proof.
  intros F. destruct w as [s d c t i h].
  destruct r as [m | [|] data]; [reflexivity | discriminate F | reflexivity].
Qed.

(** The markup of an assistant message with the failure text of a load
    holds the reason as it is, at a fixed place. *)
Lemma loadFailure_markup (m : jsstring) :
  innerHTML (assistantElement (loadFailureHtml m))
  = firstn 347 (innerHTML (assistantElement (loadFailureHtml [])))
    ++ m ++ skipn 347 (innerHTML (assistantElement (loadFailureHtml []))).
Proof.
  unfold assistantElement, innerHTML, messageHtml, loadFailureHtml.
  rewrite <- !app_assoc. vm_compute. reflexivity.
Qed.

(** The same for a question, with the reason escaped. *)
Lemma askError_markup (m : jsstring) :
  innerHTML (assistantElement (askErrorHtml m))
  = firstn 327 (innerHTML (assistantElement (askErrorHtml [])))
    ++ escapeHtml m ++ skipn 327 (innerHTML (assistantElement (askErrorHtml []))).
Proof.
  unfold assistantElement, innerHTML, messageHtml, askErrorHtml.
  rewrite <- !app_assoc. vm_compute. reflexivity.
Qed.

(** C10: the message that a failed load appends to the conversation log
    holds the failure reason as it came, and the message that a failed
    question appends holds it HTML-escaped.  The reason is the message of
    the rejection, or the [detail] of a reply with an error status, or a
    fixed text when that reply has no [detail]; the markup around it is the
    same for every reason.  A reason that is markup is markup in the log
    after a failed load, and text after a failed question. *)
Theorem failure_reason_escaping :
  exists loadBefore loadBehind askBefore askBehind : jsstring,
    (forall (path m : jsstring) (w : World),
       exists e : Element,
         messages (doc (exec (loadRepository_resume path (Rejected m)) w))
         = messages (doc w) ++ [e]
         /\ innerHTML e = loadBefore ++ m ++ loadBehind)
    /\
    (forall (path d : jsstring) (message : option jsstring)
            (stats : option (option RepoStats)) (w : World),
       d <> [] ->
       exists e : Element,
         messages (doc (exec (loadRepository_resume path
                                (Received false
                                   (mkLoadData (Some d) message stats))) w))
         = messages (doc w) ++ [e]
         /\ innerHTML e = loadBefore ++ d ++ loadBehind)
    /\
    (forall (path : jsstring) (message : option jsstring)
            (stats : option (option RepoStats)) (w : World),
       exists e : Element,
         messages (doc (exec (loadRepository_resume path
                                (Received false
                                   (mkLoadData None message stats))) w))
         = messages (doc w) ++ [e]
         /\ innerHTML e
            = loadBefore ++ js "Failed to load repository" ++ loadBehind)
    /\
    (forall (id m : jsstring) (w : World),
       exists e : Element,
         messages (doc (exec (sendMessage_resume id (Rejected m)) w))
         = removeElement (parseIds (doc w)) (cutMarkup (doc w)) id
             (messages (doc w)) ++ [e]
         /\ innerHTML e = askBefore ++ escapeHtml m ++ askBehind)
    /\
    (forall (id d : jsstring) (text : option jsstring)
            (files : option (list jsstring)) (w : World),
       d <> [] ->
       exists e : Element,
         messages (doc (exec (sendMessage_resume id
                                (Received false (mkAskData (Some d) text files)))
                          w))
         = removeElement (parseIds (doc w)) (cutMarkup (doc w)) id
             (messages (doc w)) ++ [e]
         /\ innerHTML e = askBefore ++ escapeHtml d ++ askBehind)
    /\
    (forall (id : jsstring) (text : option jsstring)
            (files : option (list jsstring)) (w : World),
       exists e : Element,
         messages (doc (exec (sendMessage_resume id
                                (Received false (mkAskData None text files))) w))
         = removeElement (parseIds (doc w)) (cutMarkup (doc w)) id
             (messages (doc w)) ++ [e]
         /\ innerHTML e
            = askBefore ++ escapeHtml (js "Failed to get answer") ++ askBehind)
    /\
    (let m := js "<img src=x>" in
     includes m (loadBefore ++ m ++ loadBehind) = true
     /\ includes m (askBefore ++ escapeHtml m ++ askBehind) = false
     /\ includes (js "&lt;img src=x&gt;")
          (askBefore ++ escapeHtml m ++ askBehind) = true).
Proof.
  exists (firstn 347 (innerHTML (assistantElement (loadFailureHtml [])))),
         (skipn 347 (innerHTML (assistantElement (loadFailureHtml [])))),
         (firstn 327 (innerHTML (assistantElement (askErrorHtml [])))),
         (skipn 327 (innerHTML (assistantElement (askErrorHtml [])))).
  split; [|split; [|split; [|split; [|split; [|split]]]]].
  - intros path m w.
    rewrite (loadRepository_resume_failed path (Rejected m) w eq_refl).
    eexists. split; [reflexivity|]. apply loadFailure_markup.
  - intros path d message stats w D.
    rewrite (loadRepository_resume_failed path
               (Received false (mkLoadData (Some d) message stats)) w eq_refl).
    eexists. split; [reflexivity|].
    destruct d as [|c d]; [contradiction|]. apply loadFailure_markup.
  - intros path message stats w.
    rewrite (loadRepository_resume_failed path
               (Received false (mkLoadData None message stats)) w eq_refl).
    eexists. split; [reflexivity|]. apply loadFailure_markup.
  - intros id m w.
    rewrite (sendMessage_resume_failed id (Rejected m) w eq_refl).
    eexists. split; [reflexivity|]. apply askError_markup.
  - intros id d text files w D.
    rewrite (sendMessage_resume_failed id
               (Received false (mkAskData (Some d) text files)) w eq_refl).
    eexists. split; [reflexivity|].
    destruct d as [|c d]; [contradiction|]. apply askError_markup.
  - intros id text files w.
    rewrite (sendMessage_resume_failed id
               (Received false (mkAskData None text files)) w eq_refl).
    eexists. split; [reflexivity|]. apply askError_markup.
  - repeat split; vm_compute; reflexivity.
Qed.
(** * Further properties of the utility functions *)

Lemma escapeHtml_cons (c : N) (s : jsstring) :
  escapeHtml (c :: s) = escapeChar c ++ escapeHtml s.
Proof. reflexivity. Qed.

Lemma escapeChar_safe (c : N) : isMarkupSafe c = true -> escapeChar c = [c].
Proof.
  unfold isMarkupSafe, escapeChar. intros H.
  apply andb_true_iff in H as [H Hg]. apply andb_true_iff in H as [H Hl].
  apply andb_true_iff in H as [Ha Hn].
  apply negb_true_iff in Ha, Hn, Hl, Hg. now rewrite Ha, Hn, Hl, Hg.
Qed.

Lemma escapeChar_length (c : N) :
  (1 <= List.length (escapeChar c))%nat
  /\ (isMarkupSafe c = false -> 2 <= List.length (escapeChar c))%nat.
Proof.
  unfold isMarkupSafe, escapeChar.
  destruct (c =? AMP); [simpl; split; [lia | intros _; lia]|].
  destruct (c =? NBSP); [simpl; split; [lia | intros _; lia]|].
  destruct (c =? LT); [simpl; split; [lia | intros _; lia]|].
  destruct (c =? GT); [simpl; split; [lia | intros _; lia]|].
  simpl. split; [lia | discriminate].
Qed.

Lemma escapeHtml_length (s : jsstring) :
  (List.length s <= List.length (escapeHtml s))%nat
  /\ (forallb isMarkupSafe s = false ->
      List.length s < List.length (escapeHtml s))%nat.
Proof.
  induction s as [|c s [IH1 IH2]]; [split; [simpl; lia | discriminate]|].
  rewrite escapeHtml_cons, length_app.
  destruct (escapeChar_length c) as [L1 L2].
  split; [simpl; lia|].
  simpl. intros H. apply andb_false_iff in H as [H|H].
  - specialize (L2 H). lia.
  - specialize (IH2 H). lia.
Qed.

(** X1: reading escaped text back as text gives the text with every
    carriage return (and a line feed behind it) made one line feed and
    without its U+0000; so a text that holds neither a carriage return nor
    U+0000 comes back as it was. *)
Theorem escapeHtml_reads_back :
  (forall s : jsstring,
     parseText (escapeHtml s) = dropNulls (normalizeNewlines false s))
  /\ (forall s : jsstring,
        forallb isKept s = true -> parseText (escapeHtml s) = s).
Proof.
  split; [exact parseText_escapeHtml | exact parseText_escapeHtml_kept].
Qed.

Lemma escapeHtml_reads_back_witness :
  parseText (escapeHtml (js "a < b && c > d" ++ [NL; NBSP]))
  = js "a < b && c > d" ++ [NL; NBSP]
  /\ parseText (escapeHtml (js "a<b" ++ [CR; NL; NUL] ++ js "c" ++ [CR]))
     = js "a<b" ++ [NL] ++ js "c" ++ [NL].
Proof.
  destruct escapeHtml_reads_back as [G K]. split.
  - apply K. reflexivity.
  - rewrite G. reflexivity.
Defined.

(** X2: [escapeHtml] gives a string back unchanged exactly when the string
    holds no [&], no [<], no [>] and no no-break space; any other string
    comes back longer. *)
Theorem escapeHtml_fixed_points (s : jsstring) :
  (escapeHtml s = s <-> forallb isMarkupSafe s = true)
  /\ (List.length s <= List.length (escapeHtml s))%nat.
Proof.
  split; [|exact (proj1 (escapeHtml_length s))].
  split.
  - intros E. destruct (forallb isMarkupSafe s) eqn:F; [reflexivity|].
    pose proof (proj2 (escapeHtml_length s) F) as L. rewrite E in L. lia.
  - induction s as [|c s IH]; [reflexivity|].
    intros H. simpl in H. apply andb_true_iff in H as [Hc Hs].
    rewrite escapeHtml_cons, (escapeChar_safe c Hc), (IH Hs). reflexivity.
Qed.

(** ** [getBasename] *)

Lemma lastSegment_plain (acc s : jsstring) :
  forallb notSeparator s = true -> lastSegment acc s = acc ++ s.
Proof.
  revert acc. induction s as [|c s IH]; intros acc H; simpl.
  - now rewrite app_nil_r.
  - simpl in H. apply andb_true_iff in H as [Hc Hs].
    unfold notSeparator in Hc. apply negb_true_iff in Hc. rewrite Hc.
    rewrite (IH _ Hs). now rewrite <- app_assoc.
Qed.

Lemma lastSegment_split (acc dir : jsstring) (sep : N) (name : jsstring) :
  isSeparator sep = true ->
  lastSegment acc (dir ++ sep :: name) = lastSegment [] name.
Proof.
  intros S. revert acc. induction dir as [|c dir IH]; intros acc; simpl.
  - now rewrite S.
  - destruct (isSeparator c); apply IH.
Qed.

Lemma lastSegment_no_separator (acc s : jsstring) :
  forallb notSeparator acc = true ->
  forallb notSeparator (lastSegment acc s) = true.
Proof.
  revert acc. induction s as [|c s IH]; intros acc A; simpl; [exact A|].
  destruct (isSeparator c) eqn:E.
  - now apply IH.
  - apply IH. rewrite forallb_app, A. simpl. unfold notSeparator. now rewrite E.
Qed.

(** X3: [getBasename] returns what follows the last slash or backslash of
    the path (the whole path when it has neither, the empty string when the
    path ends in one), and its result never holds a slash or a backslash. *)
Theorem getBasename_last_segment :
  (forall path : jsstring, forallb notSeparator (getBasename path) = true)
  /\ (forall name : jsstring,
        forallb notSeparator name = true -> getBasename name = name)
  /\ (forall (dir name : jsstring) (sep : N),
        isSeparator sep = true ->
        forallb notSeparator name = true ->
        getBasename (dir ++ sep :: name) = name).
Proof.
  split; [|split].
  - intros path. now apply lastSegment_no_separator.
  - intros name H. unfold getBasename. now rewrite lastSegment_plain.
  - intros dir name sep S H. unfold getBasename.
    rewrite (lastSegment_split [] dir sep name S).
    now rewrite lastSegment_plain.
Qed.

Lemma getBasename_last_segment_witness :
  getBasename (js "repo") = js "repo"
  /\ getBasename (js "C:\work/src" ++ 92 :: js "repo") = js "repo"
  /\ getBasename (js "/home/me/repo" ++ 47 :: []) = [].
Proof.
  destruct getBasename_last_segment as [_ [P S]].
  split; [apply P; reflexivity|].
  split; apply S; reflexivity.
Defined.

(** * Further properties of [formatAnswer] *)

Section ReplaceStops.

Variable matchAt : jsstring -> option (jsstring * nat).
Variable quiet : N -> bool.
Hypothesis quiet_spec :
  forall c t, quiet c = true -> matchAt (c :: t) = None.

(** Two places at which the expression is tried and fails, in text at which
    it is not tried. *)
Lemma replaceAll_stops (a c b : jsstring) (x y : N) :
  forallb quiet a = true -> forallb quiet c = true -> forallb quiet b = true ->
  matchAt (x :: c ++ y :: b) = None ->
  matchAt (y :: b) = None ->
  replaceAll matchAt (a ++ x :: c ++ y :: b) = a ++ x :: c ++ y :: b.
Proof.
  intros A C B M1 M2. unfold replaceAll.
  rewrite (replaceFrom_quiet_prefix matchAt quiet quiet_spec) by exact A.
  rewrite (replaceFrom_none matchAt _ _ M1).
  rewrite (replaceFrom_quiet_prefix matchAt quiet quiet_spec) by exact C.
  rewrite (replaceFrom_none matchAt _ _ M2).
  fold (replaceAll matchAt b).
  now rewrite (replaceAll_quiet matchAt quiet quiet_spec b B).
Qed.

(** One match between text at which the expression is not tried. *)
Lemma replaceAll_one_match (a tl rest out : jsstring) (c : N) :
  forallb quiet a = true -> forallb quiet rest = true ->
  matchAt (c :: tl ++ rest) = Some (out, S (List.length tl)) ->
  replaceAll matchAt (a ++ c :: tl ++ rest) = a ++ out ++ rest.
Proof.
  intros A R M. unfold replaceAll.
  rewrite (replaceFrom_quiet_prefix matchAt quiet quiet_spec) by exact A.
  rewrite (replaceFrom_match matchAt c tl rest out M).
  fold (replaceAll matchAt rest).
  now rewrite (replaceAll_quiet matchAt quiet quiet_spec rest R).
Qed.

End ReplaceStops.

Lemma matchDelimited_match (d : N) (o cl before behind c rest : jsstring) :
  forallb (fun x => negb (x =? d)) c = true -> c <> [] ->
  matchDelimited d o (d :: cl) before behind (o ++ c ++ (d :: cl) ++ rest)
  = Some (before ++ c ++ behind,
          (List.length o + List.length c + List.length (d :: cl))%nat).
Proof.
  intros C N. unfold matchDelimited. rewrite stripPrefix_app.
  change (c ++ (d :: cl) ++ rest) with (c ++ d :: (cl ++ rest)).
  rewrite (span_stop (fun x => negb (x =? d)) c d (cl ++ rest) C)
    by now rewrite N.eqb_refl.
  destruct c as [|c1 c']; [contradiction|].
  change (d :: cl ++ rest) with ((d :: cl) ++ rest).
  now rewrite stripPrefix_app.
Qed.

Lemma stripPrefix_short (a b : N) (s : jsstring) :
  startsWith [b] s = false -> stripPrefix (a :: b :: []) (a :: s) = None
                              /\ stripPrefix (a :: b :: b :: []) (a :: s) = None.
Proof.
  unfold startsWith. intros H. rewrite !stripPrefix_same.
  destruct s as [|x s]; [split; reflexivity|].
  cbn [stripPrefix] in *. destruct (b =? x); [discriminate | split; reflexivity].
Qed.


Lemma matchBold_single (s : jsstring) :
  startsWith [STAR] s = false -> matchBold (STAR :: s) = None.
Proof.
  intros H. unfold matchBold, matchDelimited.
  now rewrite (proj1 (stripPrefix_short STAR STAR s H)).
Qed.

Lemma startsWith_quiet (d : N) (s t : jsstring) :
  forallb (fun x => negb (x =? d)) s = true ->
  startsWith [d] t = false ->
  startsWith [d] (s ++ t) = false.
Proof.
  intros S T. destruct s as [|x s]; [exact T|].
  simpl in S. apply andb_true_iff in S as [Sx _]. apply negb_true_iff in Sx.
  unfold startsWith. simpl app. now rewrite (stripPrefix_head _ _ _ _ Sx).
Qed.

Lemma startsWith_cons_other (d x : N) (s : jsstring) :
  negb (x =? d) = true -> startsWith [d] (x :: s) = false.
Proof.
  intros H. apply negb_true_iff in H.
  unfold startsWith. now rewrite (stripPrefix_head _ _ _ _ H).
Qed.

(** The rules that follow a string free of backticks, asterisks and line
    feeds leave it as it is. *)
Lemma rules_plain (s : jsstring) :
  forallb isPlain s = true ->
  codeBlocks s = s /\ inlineCode s = s /\ bold s = s /\ italic s = s
  /\ paragraphBreaks s = s /\ lineBreaks s = s.
Proof.
  intros P.
  pose proof (forallb_weaken _ _ _ isPlain_notBacktick P) as Pb.
  pose proof (forallb_weaken _ _ _ isPlain_notStar P) as Ps.
  pose proof (forallb_weaken _ _ _ isPlain_notNewline P) as Pn.
  repeat split.
  - now apply codeBlocks_quiet.
  - now apply inlineCode_quiet.
  - now apply bold_quiet.
  - now apply italic_quiet.
  - now apply paragraphBreaks_quiet.
  - now apply lineBreaks_quiet.
Qed.

(** X4: text without backticks, asterisks and line feeds goes through
    [formatAnswer] untouched, markup included: it comes back as it is when
    it starts with [<], and between [<p>] and [</p>] otherwise (so the empty
    text gives an empty paragraph). *)
Theorem formatAnswer_plain_text (s : jsstring) :
  forallb isPlain s = true ->
  formatAnswer s
  = if startsWith (js "<") s then s else js "<p>" ++ s ++ js "</p>".
Proof.
  intros P. destruct (rules_plain s P) as [E1 [E2 [E3 [E4 [E5 E6]]]]].
  unfold formatAnswer. rewrite E1, E2, E3, E4, E5, E6.
  unfold wrapParagraph. now destruct (startsWith (js "<") s).
Qed.

Lemma formatAnswer_plain_text_witness :
  formatAnswer (js "It parses <input> & more.")
  = js "<p>" ++ js "It parses <input> & more." ++ js "</p>"
  /\ formatAnswer [] = js "<p>" ++ [] ++ js "</p>"
  /\ formatAnswer (js "<script>x</script>") = js "<script>x</script>".
Proof.
  split; [|split].
  - exact (formatAnswer_plain_text (js "It parses <input> & more.") eq_refl).
  - exact (formatAnswer_plain_text [] eq_refl).
  - exact (formatAnswer_plain_text (js "<script>x</script>") eq_refl).
Defined.

Lemma startsWith_free (d : N) (s : jsstring) :
  forallb (fun x => negb (x =? d)) s = true -> startsWith [d] s = false.
Proof.
  destruct s as [|x s]; [reflexivity|].
  simpl. intros H. apply andb_true_iff in H as [Hx _].
  now apply startsWith_cons_other.
Qed.

Lemma startsWith_free_app (d : N) (c t : jsstring) :
  forallb (fun x => negb (x =? d)) c = true -> c <> [] ->
  startsWith [d] (c ++ t) = false.
Proof.
  destruct c as [|x c]; [contradiction|].
  simpl. intros H _. apply andb_true_iff in H as [Hx _].
  now apply startsWith_cons_other.
Qed.



(** X6: a span between double asterisks, in text that holds no other
    marker, comes out between [<strong>] and [</strong>]. *)
Theorem formatAnswer_strong (a c b : jsstring) :
  forallb isPlain a = true -> forallb isPlain c = true ->
  forallb isPlain b = true -> c <> [] ->
  formatAnswer (a ++ STAR :: STAR :: c ++ STAR :: STAR :: b)
  = wrapParagraph (a ++ js "<strong>" ++ c ++ js "</strong>" ++ b).
Proof.
  intros A C B NE.
  pose proof (forallb_weaken _ _ _ isPlain_notBacktick A) as Ab.
  pose proof (forallb_weaken _ _ _ isPlain_notBacktick C) as Cb.
  pose proof (forallb_weaken _ _ _ isPlain_notBacktick B) as Bb.
  pose proof (forallb_weaken _ _ _ isPlain_notStar A) as As.
  pose proof (forallb_weaken _ _ _ isPlain_notStar C) as Cs.
  pose proof (forallb_weaken _ _ _ isPlain_notStar B) as Bs.
  unfold formatAnswer. f_equal.
  assert (T : forallb notBacktick (a ++ STAR :: STAR :: c ++ STAR :: STAR :: b)
              = true).
  { rewrite forallb_app, Ab. simpl. rewrite forallb_app, Cb. simpl. exact Bb. }
  rewrite (codeBlocks_quiet _ T), (inlineCode_quiet _ T).
  assert (E : bold (a ++ STAR :: STAR :: c ++ STAR :: STAR :: b)
              = a ++ (js "<strong>" ++ c ++ js "</strong>") ++ b).
  { replace (a ++ STAR :: STAR :: c ++ STAR :: STAR :: b)
      with (a ++ STAR :: (STAR :: c ++ [STAR; STAR]) ++ b)
      by (simpl; now rewrite <- app_assoc).
    apply (replaceAll_one_match matchBold notStar);
      [intros x t; apply matchDelimited_quiet | assumption | assumption |].
    pose proof (matchDelimited_match STAR [STAR; STAR] [STAR] (js "<strong>")
                  (js "</strong>") c b Cs NE) as M.
    unfold matchBold.
    replace (STAR :: (STAR :: c ++ [STAR; STAR]) ++ b)
      with ([STAR; STAR] ++ c ++ [STAR; STAR] ++ b)
      by (simpl; now rewrite <- app_assoc).
    rewrite M. f_equal. f_equal. simpl. rewrite length_app. simpl. lia. }
  rewrite E.
  assert (X : forallb isPlain (a ++ (js "<strong>" ++ c ++ js "</strong>") ++ b)
              = true).
  { rewrite !forallb_app, A, C, B. reflexivity. }
  destruct (rules_plain _ X) as [_ [_ [_ [E4 [E5 E6]]]]].
  rewrite E4, E5, E6. now rewrite <- !app_assoc.
Qed.

Lemma formatAnswer_strong_witness :
  formatAnswer (js "a " ++ STAR :: STAR :: js "very" ++ STAR :: STAR :: js " b")
  = wrapParagraph (js "a " ++ js "<strong>" ++ js "very" ++ js "</strong>" ++ js " b").
Proof.
  apply (formatAnswer_strong (js "a ") (js "very") (js " b"));
    [reflexivity | reflexivity | reflexivity | discriminate].
Defined.

(** X7: a span between single asterisks, in text that holds no other
    marker, is left alone by the rule for double asterisks and comes out
    between [<em>] and [</em>]. *)
Theorem formatAnswer_emphasis (a c b : jsstring) :
  forallb isPlain a = true -> forallb isPlain c = true ->
  forallb isPlain b = true -> c <> [] ->
  formatAnswer (a ++ STAR :: c ++ STAR :: b)
  = wrapParagraph (a ++ js "<em>" ++ c ++ js "</em>" ++ b).
Proof.
  intros A C B NE.
  pose proof (forallb_weaken _ _ _ isPlain_notBacktick A) as Ab.
  pose proof (forallb_weaken _ _ _ isPlain_notBacktick C) as Cb.
  pose proof (forallb_weaken _ _ _ isPlain_notBacktick B) as Bb.
  pose proof (forallb_weaken _ _ _ isPlain_notStar A) as As.
  pose proof (forallb_weaken _ _ _ isPlain_notStar C) as Cs.
  pose proof (forallb_weaken _ _ _ isPlain_notStar B) as Bs.
  unfold formatAnswer. f_equal.
  assert (T : forallb notBacktick (a ++ STAR :: c ++ STAR :: b) = true).
  { rewrite forallb_app, Ab. simpl. rewrite forallb_app, Cb. simpl. exact Bb. }
  rewrite (codeBlocks_quiet _ T), (inlineCode_quiet _ T).
  assert (E1 : bold (a ++ STAR :: c ++ STAR :: b) = a ++ STAR :: c ++ STAR :: b).
  { apply (replaceAll_stops matchBold notStar);
      [intros x t; apply matchDelimited_quiet | assumption | assumption
       | assumption | |].
    - apply matchBold_single. now apply startsWith_free_app.
    - apply matchBold_single. now apply startsWith_free. }
  rewrite E1.
  assert (E2 : italic (a ++ STAR :: c ++ STAR :: b)
               = a ++ (js "<em>" ++ c ++ js "</em>") ++ b).
  { replace (a ++ STAR :: c ++ STAR :: b)
      with (a ++ STAR :: (c ++ [STAR]) ++ b)
      by now rewrite <- app_assoc.
    apply (replaceAll_one_match matchItalic notStar);
      [intros x t; apply matchDelimited_quiet | assumption | assumption |].
    pose proof (matchDelimited_match STAR [STAR] [] (js "<em>")
                  (js "</em>") c b Cs NE) as M.
    unfold matchItalic.
    replace (STAR :: (c ++ [STAR]) ++ b)
      with ([STAR] ++ c ++ [STAR] ++ b)
      by (simpl; now rewrite <- app_assoc).
    rewrite M. f_equal. f_equal. rewrite length_app. simpl. lia. }
  rewrite E2.
  assert (X : forallb isPlain (a ++ (js "<em>" ++ c ++ js "</em>") ++ b) = true).
  { rewrite !forallb_app, A, C, B. reflexivity. }
  destruct (rules_plain _ X) as [_ [_ [_ [_ [E5 E6]]]]].
  rewrite E5, E6. now rewrite <- !app_assoc.
Qed.

Lemma formatAnswer_emphasis_witness :
  formatAnswer (js "a " ++ STAR :: js "very" ++ STAR :: js " b")
  = wrapParagraph (js "a " ++ js "<em>" ++ js "very" ++ js "</em>" ++ js " b").
Proof.
  apply (formatAnswer_emphasis (js "a ") (js "very") (js " b"));
    [reflexivity | reflexivity | reflexivity | discriminate].
Defined.

Lemma rules_unmarked (s : jsstring) :
  forallb notBacktick s = true -> forallb notStar s = true ->
  italic (bold (inlineCode (codeBlocks s))) = s.
Proof.
  intros Sb Ss.
  now rewrite (codeBlocks_quiet s Sb), (inlineCode_quiet s Sb),
    (bold_quiet s Ss), (italic_quiet s Ss).
Qed.

(** X8: between two pieces of text without markers, a blank line becomes
    [</p><p>] and a single line feed becomes [<br>]. *)
Theorem formatAnswer_line_feeds (a b : jsstring) :
  forallb isPlain a = true -> forallb isPlain b = true ->
  formatAnswer (a ++ NL :: NL :: b) = wrapParagraph (a ++ js "</p><p>" ++ b)
  /\ formatAnswer (a ++ NL :: b) = wrapParagraph (a ++ js "<br>" ++ b).
Proof.
  intros A B.
  pose proof (forallb_weaken _ _ _ isPlain_notBacktick A) as Ab.
  pose proof (forallb_weaken _ _ _ isPlain_notBacktick B) as Bb.
  pose proof (forallb_weaken _ _ _ isPlain_notStar A) as As.
  pose proof (forallb_weaken _ _ _ isPlain_notStar B) as Bs.
  pose proof (forallb_weaken _ _ _ isPlain_notNewline A) as An.
  pose proof (forallb_weaken _ _ _ isPlain_notNewline B) as Bn.
  split; unfold formatAnswer; f_equal.
  - rewrite rules_unmarked
      by (rewrite forallb_app; simpl; first [now rewrite Ab | now rewrite As]).
    assert (E : paragraphBreaks (a ++ NL :: NL :: b) = a ++ js "</p><p>" ++ b).
    { change (a ++ NL :: NL :: b) with (a ++ NL :: [NL] ++ b).
      apply (replaceAll_one_match matchParagraphBreak notNewline);
        [intros x t; apply matchLiteral_quiet | assumption | assumption |].
      unfold matchParagraphBreak, matchLiteral.
      change (NL :: [NL] ++ b) with ([NL; NL] ++ b).
      now rewrite stripPrefix_app. }
    rewrite E. apply lineBreaks_quiet.
    rewrite !forallb_app, An, Bn. reflexivity.
  - rewrite rules_unmarked
      by (rewrite forallb_app; simpl; first [now rewrite Ab | now rewrite As]).
    assert (E : paragraphBreaks (a ++ NL :: b) = a ++ NL :: b).
    { unfold paragraphBreaks, replaceAll.
      rewrite (replaceFrom_quiet_prefix matchParagraphBreak notNewline)
        by (try exact An; intros x t; apply matchLiteral_quiet).
      assert (M : matchParagraphBreak (NL :: b) = None).
      { unfold matchParagraphBreak, matchLiteral.
        now rewrite (proj1 (stripPrefix_short NL NL b (startsWith_free NL b Bn))). }
      rewrite (replaceFrom_none _ _ _ M).
      fold (replaceAll matchParagraphBreak b). fold (paragraphBreaks b).
      now rewrite (paragraphBreaks_quiet b Bn). }
    rewrite E. change (a ++ NL :: b) with (a ++ [NL] ++ b).
    rewrite !lineBreaks_app.
    now rewrite (lineBreaks_quiet a An), (lineBreaks_quiet b Bn).
Qed.

Lemma formatAnswer_line_feeds_witness :
  formatAnswer (js "one" ++ NL :: NL :: js "two")
  = wrapParagraph (js "one" ++ js "</p><p>" ++ js "two")
  /\ formatAnswer (js "one" ++ NL :: js "two")
     = wrapParagraph (js "one" ++ js "<br>" ++ js "two").
Proof.
  exact (formatAnswer_line_feeds (js "one") (js "two") eq_refl eq_refl).
Defined.

Lemma lineBreaks_no_line_feed (s : jsstring) :
  forallb notNewline (lineBreaks s) = true.
Proof.
  rewrite lineBreaks_flat_map.
  induction s as [|c s IH]; [reflexivity|].
  simpl. rewrite forallb_app, IH, andb_true_r.
  unfold lineBreakChar. destruct (c =? NL) eqn:E; [reflexivity|].
  simpl. unfold notNewline. now rewrite E.
Qed.

(** X9: whatever the answer text is, the fragment that [formatAnswer]
    returns holds no line feed and starts with [<]. *)
Theorem formatAnswer_fragment_shape (text : jsstring) :
  forallb notNewline (formatAnswer text) = true
  /\ startsWith (js "<") (formatAnswer text) = true.
Proof.
  unfold formatAnswer.
  set (html := lineBreaks _).
  assert (H : forallb notNewline html = true) by apply lineBreaks_no_line_feed.
  unfold wrapParagraph.
  destruct (startsWith (js "<") html) eqn:S; simpl.
  - split; [exact H | exact S].
  - split; [|reflexivity].
    rewrite !forallb_app, H. reflexivity.
Qed.


(** * Further properties of the handlers *)

Lemma trimStart_blank (s : jsstring) :
  forallb isWhiteSpace s = true -> trimStart s = [].
Proof.
  induction s as [|c s IH]; [reflexivity|].
  simpl. intros H. apply andb_true_iff in H as [Hc Hs]. rewrite Hc. now apply IH.
Qed.

Lemma trim_blank (s : jsstring) : forallb isWhiteSpace s = true -> trim s = [].
Proof.
  intros H. unfold trim. now rewrite (trimStart_blank s H).
Qed.

(** X10: with a path field that is empty or holds white space only,
    [loadRepository] sends no request and touches neither the state object
    nor the message list: it shows the error status and schedules its
    reversion. *)
Theorem loadRepository_blank_path (w : World) :
  forallb isWhiteSpace (repoPath_value (doc w)) = true ->
  let w' := exec loadRepository w in
  fst (loadRepository w) = Normal tt
  /\ history w' = history w
  /\ inflight w' = inflight w
  /\ state w' = state w
  /\ messages (doc w') = messages (doc w)
  /\ loadingOverlay_hidden (doc w') = loadingOverlay_hidden (doc w)
  /\ repoStatus_className (doc w') = js "repo-status " ++ js "error"
  /\ repoStatus_text (doc w') = js "Please enter a repository path"
  /\ timers w' = timers w ++ [clock w + 3000].
Proof.
  intros H.
  assert (E : loadRepository w
              = showError (js "Please enter a repository path") w).
  { unfold loadRepository. unfold bind at 1. unfold read at 1.
    now rewrite (trim_blank _ H). }
  unfold exec. rewrite E. destruct w as [s d c t i h]. repeat split.
Qed.

Lemma loadRepository_blank_path_witness :
  let w := on_doc (set_repoPath_value (js "   ")) (boot dom0 1000) in
  let w' := exec loadRepository w in
  fst (loadRepository w) = Normal tt
  /\ history w' = history w
  /\ inflight w' = inflight w
  /\ state w' = state w
  /\ messages (doc w') = messages (doc w)
  /\ loadingOverlay_hidden (doc w') = loadingOverlay_hidden (doc w)
  /\ repoStatus_className (doc w') = js "repo-status " ++ js "error"
  /\ repoStatus_text (doc w') = js "Please enter a repository path"
  /\ timers w' = timers w ++ [clock w + 3000].
Proof.
  intros w. apply (loadRepository_blank_path w). reflexivity.
Defined.

(** X11: in every world the page can be in, at most one question is in
    flight, [isLoading] is true exactly while one is, and while one is the
    send button and the Enter key do nothing at all. *)
Theorem single_question_in_flight (w : World) :
  reachable w ->
  (List.length (asks (inflight w)) <= 1)%nat
  /\ (isLoading (state w) = true <-> asks (inflight w) <> [])
  /\ (asks (inflight w) <> [] -> handle SendClick w = Some w).
Proof.
  intros R. pose proof (reachable_consistent w R) as A. unfold consistent in A.
  assert (L : isLoading (state w) = true <-> asks (inflight w) <> []).
  { destruct (isLoading (state w)).
    - destruct A as [id [-> _]]. split; [discriminate | reflexivity].
    - rewrite A. split; [discriminate | intros N; now destruct N]. }
  split; [|split; [exact L|]].
  - destruct (isLoading (state w)); [destruct A as [id [-> _]] | rewrite A];
      simpl; lia.
  - intros N. apply L in N. unfold handle, exec.
    rewrite sendMessage_unfold.
    assert (B : blocked (trim (messageInput_value (doc w))) (state w) = true).
    { apply blocked_true. right. left. exact N. }
    now rewrite B.
Qed.

Lemma single_question_in_flight_witness :
  let w := after [PathInput (js "./repo"); LoadClick;
                  LoadReply (js "./repo")
                    (Received true (mkLoadData None (Some (js "ok"))
                                      (Some (Some (mkRepoStats 1 2 3)))));
                  MessageInput (js "hi"); SendClick;
                  MessageInput (js "again")] (boot dom0 1000) in
  (List.length (asks (inflight w)) <= 1)%nat
  /\ (isLoading (state w) = true <-> asks (inflight w) <> [])
  /\ handle SendClick w = Some w.
Proof.
  intros w.
  assert (R : reachable w).
  { exists dom0, 1000,
      [PathInput (js "./repo"); LoadClick;
       LoadReply (js "./repo")
         (Received true (mkLoadData None (Some (js "ok"))
                           (Some (Some (mkRepoStats 1 2 3)))));
       MessageInput (js "hi"); SendClick; MessageInput (js "again")].
    split; [reflexivity | vm_compute; reflexivity]. }
  destruct (single_question_in_flight w R) as [A [B C]].
  split; [exact A|]. split; [exact B|].
  apply C. vm_compute. discriminate.
Defined.

(** ** What holds after every sequence of events *)

(** *** What is loaded stays loaded *)

Lemma staysLoaded_refl (w : World) : staysLoaded w w.
Proof. intros H. exact H. Qed.

Lemma staysLoaded_trans (a b c : World) :
  staysLoaded a b -> staysLoaded b c -> staysLoaded a c.
Proof. unfold staysLoaded. auto. Qed.

Ltac staysLoaded_leaf :=
  idtac;
  match goal with
  | |- staysLoaded ?w _ =>
      destruct w as [[? ? ?] ? ? ? ? ?]; unfold staysLoaded; simpl; intros;
      first [assumption | reflexivity]
  end.

Ltac staysLoaded_steps :=
  respects_steps staysLoaded_refl staysLoaded_trans ltac:(fail)
    ltac:(staysLoaded_leaf).

(** X12: no event undoes a load: once [repositoryLoaded] is true it stays
    true, whatever events follow. *)
Theorem loaded_for_good (es : list Event) (w w' : World) :
  run es w = Some w' ->
  repositoryLoaded (state w) = true -> repositoryLoaded (state w') = true.
Proof.
  apply (run_respects staysLoaded staysLoaded_refl staysLoaded_trans);
    try (intros; staysLoaded_leaf).
  - unfold loadRepository. staysLoaded_steps.
  - unfold sendMessage. staysLoaded_steps.
  - intros q. unfold quickClick. staysLoaded_steps.
  - intros r. unfold checkStatus_resume. staysLoaded_steps.
  - intros p r. unfold loadRepository_resume. staysLoaded_steps.
  - intros i r. unfold sendMessage_resume. staysLoaded_steps.
  - unfold revertStatus. staysLoaded_steps.
Qed.

Lemma loaded_for_good_witness :
  let w := after [PathInput (js "./repo"); LoadClick;
                  LoadReply (js "./repo")
                    (Received true (mkLoadData None (Some (js "ok"))
                                      (Some (Some (mkRepoStats 1 2 3)))))]
                 (boot dom0 1000) in
  let es := [PathInput (js "./gone"); LoadClick;
             LoadReply (js "./gone")
               (Received false (mkLoadData (Some (js "path not found"))
                                  None None));
             StatusReply (Received true (mkStatusData true Null None));
             PathInput []; LoadClick; Tick 3000; TimerFires 4000] in
  repositoryLoaded (state (after es w)) = true.
Proof.
  intros w es.
  assert (H : run es w = Some (after es w)) by (vm_compute; reflexivity).
  apply (loaded_for_good es w (after es w) H).
  vm_compute. reflexivity.
Defined.

(** *** Messages stay *)

Lemma settled_app (a b : list Element) :
  settled (a ++ b) = settled a ++ settled b.
Proof. apply filter_app. Qed.

Lemma hasId_isMessage (id : jsstring) (e : Element) :
  hasId id e = true -> isMessage e = false.
Proof. unfold hasId, isMessage. destruct (el_id e); [reflexivity | discriminate]. Qed.

Lemma keptAs_refl (parse : jsstring -> list jsstring) (e : Element) :
  keptAs parse e e.
Proof. repeat split. now left. Qed.

Lemma keptAs_trans (parse : jsstring -> list jsstring) (a b c : Element) :
  keptAs parse a b -> keptAs parse b c -> keptAs parse a c.
Proof.
  intros [A1 [A2 A3]] [B1 [B2 B3]]. split; [congruence|]. split; [congruence|].
  destruct A3 as [A3|A3]; [|now right].
  destruct B3 as [B3|B3]; [left; congruence | right; now rewrite <- A3].
Qed.

Lemma keptAs_all (parse : jsstring -> list jsstring) (l : list Element) :
  Forall2 (keptAs parse) l l.
Proof. induction l; constructor; [apply keptAs_refl | assumption]. Qed.

Lemma keptAs_all_trans (parse : jsstring -> list jsstring)
    (a b c : list Element) :
  Forall2 (keptAs parse) a b -> Forall2 (keptAs parse) b c ->
  Forall2 (keptAs parse) a c.
Proof.
  intros H. revert c. induction H as [|x y a b K H IH]; intros c G.
  - inversion G. constructor.
  - inversion G as [|y' z b' c' K' G' E1 E2]. subst.
    constructor; [exact (keptAs_trans parse x y z K K') | now apply IH].
Qed.

(** The removal of a typing indicator takes no message out, and it changes
    the markup of a message only if that markup held an element with an
    id. *)
Lemma settled_removeElement (parse : jsstring -> list jsstring)
    (cut : jsstring -> jsstring -> jsstring) (id : jsstring)
    (l : list Element) :
  Forall2 (keptAs parse) (settled l) (settled (removeElement parse cut id l)).
Proof.
  induction l as [|e l IH]; [constructor|].
  simpl. destruct (hasId id e) eqn:H.
  - rewrite (hasId_isMessage id e H). apply keptAs_all.
  - destruct (mentions parse id e) eqn:M.
    + unfold settled. cbn [filter]. fold (settled l).
      change (isMessage (mkElement (el_id e) (className e)
                           (cut id (innerHTML e))))
        with (isMessage e).
      destruct (isMessage e); [|apply keptAs_all].
      constructor; [|apply keptAs_all].
      split; [reflexivity|]. split; [reflexivity|]. right.
      unfold mentions in M. destruct (parse (innerHTML e)); [discriminate M|].
      discriminate.
    + simpl. destruct (isMessage e); [|exact IH].
      constructor; [apply keptAs_refl | exact IH].
Qed.

Lemma logKept_refl (w : World) : logKept w w.
Proof.
  split; [reflexivity|]. exists (settled (messages (doc w))), [].
  split; [now rewrite app_nil_r | apply keptAs_all].
Qed.

Lemma logKept_trans (a b c : World) :
  logKept a b -> logKept b c -> logKept a c.
Proof.
  intros [P1 [o1 [n1 [E1 F1]]]] [P2 [o2 [n2 [E2 F2]]]].
  split; [congruence|]. rewrite E1 in F2. rewrite P1 in F2.
  apply Forall2_app_inv_l in F2 as [o2a [o2b [Fa [Fb ->]]]].
  exists o2a, (o2b ++ n2). split.
  - now rewrite E2, app_assoc.
  - exact (keptAs_all_trans _ _ _ _ F1 Fa).
Qed.

Lemma logKept_same (w w' : World) :
  parseIds (doc w') = parseIds (doc w) ->
  messages (doc w') = messages (doc w) -> logKept w w'.
Proof.
  intros P M. split; [exact P|]. rewrite M.
  exists (settled (messages (doc w))), [].
  split; [now rewrite app_nil_r | apply keptAs_all].
Qed.

Lemma logKept_append (w w' : World) (e : Element) :
  parseIds (doc w') = parseIds (doc w) ->
  messages (doc w') = messages (doc w) ++ [e] -> logKept w w'.
Proof.
  intros P M. split; [exact P|]. rewrite M, settled_app.
  exists (settled (messages (doc w))), (settled [e]).
  split; [reflexivity | apply keptAs_all].
Qed.

Lemma logKept_removeTypingIndicator (id : jsstring) :
  respects logKept (removeTypingIndicator id).
Proof.
  intros w. unfold removeTypingIndicator, bind, read.
  destruct (getElementById _ _ _) as [found|]; [|apply logKept_refl].
  destruct w as [s d c t i h]. split; [reflexivity|]. simpl.
  exists (settled (removeElement (parseIds d) (cutMarkup d) id (messages d))), [].
  split; [now rewrite app_nil_r | apply settled_removeElement].
Qed.

Ltac logKept_leaf :=
  idtac;
  match goal with
  | |- logKept ?w _ =>
      destruct w as [[? ? ?] ? ? ? ? ?];
      first [ apply logKept_same; reflexivity
            | eapply logKept_append; reflexivity ]
  end.

Ltac logKept_steps :=
  respects_steps logKept_refl logKept_trans
    ltac:(apply logKept_removeTypingIndicator) ltac:(logKept_leaf).

(** X13: no event takes a message out of the conversation log or moves it:
    whatever events happen, the messages that were in the list are still
    there, in their order and in front of the newer ones, each with its
    class and, unless its markup held an element with an id, with its
    markup.  Only typing indicators are taken out of the list. *)
Theorem messages_append_only (es : list Event) (w w' : World) :
  run es w = Some w' ->
  exists older newer : list Element,
    settled (messages (doc w')) = older ++ newer
    /\ Forall2 (keptAs (parseIds (doc w))) (settled (messages (doc w))) older.
Proof.
  intros H. apply (proj2 (A := parseIds (doc w') = parseIds (doc w))).
  revert H. change (run es w = Some w' -> logKept w w').
  apply (run_respects logKept logKept_refl logKept_trans);
    try (intros; logKept_leaf).
  - unfold loadRepository. logKept_steps.
  - unfold sendMessage. logKept_steps.
  - intros q. unfold quickClick. logKept_steps.
  - intros r. unfold checkStatus_resume. logKept_steps.
  - intros p r. unfold loadRepository_resume. logKept_steps.
  - intros i r. unfold sendMessage_resume. logKept_steps.
  - unfold revertStatus. logKept_steps.
Qed.

Lemma messages_append_only_witness :
  let w := after [PathInput (js "./repo"); LoadClick;
                  LoadReply (js "./repo")
                    (Received true (mkLoadData None (Some (js "ok"))
                                      (Some (Some (mkRepoStats 1 2 3)))));
                  MessageInput (js "hi"); SendClick] (boot dom0 1000) in
  let es := [AskReply (js "typing-1000") (Rejected (js "offline"))] in
  exists older newer : list Element,
    settled (messages (doc (after es w))) = older ++ newer
    /\ Forall2 (keptAs (parseIds (doc w))) (settled (messages (doc w))) older.
Proof.
  intros w es.
  apply (messages_append_only es w (after es w)).
  vm_compute. reflexivity.
Defined.

(** *** Requests *)

Lemma trimStart_split (s : jsstring) :
  exists blank, s = blank ++ trimStart s /\ forallb isWhiteSpace blank = true.
Proof.
  induction s as [|c s [blank [E B]]]; [exists []; split; reflexivity|].
  simpl. destruct (isWhiteSpace c) eqn:W.
  - exists (c :: blank). simpl. rewrite W, B. split; [now rewrite <- E | reflexivity].
  - exists []. split; reflexivity.
Qed.

Lemma trimStart_head (s : jsstring) (c : N) (r : jsstring) :
  trimStart s = c :: r -> isWhiteSpace c = false.
Proof.
  induction s as [|x s IH]; [discriminate|].
  simpl. destruct (isWhiteSpace x) eqn:W; [exact IH|].
  intros H. injection H as <- _. exact W.
Qed.

Lemma trimStart_fixed (c : N) (r : jsstring) :
  isWhiteSpace c = false -> trimStart (c :: r) = c :: r.
Proof. intros W. simpl. now rewrite W. Qed.

Lemma trimStart_idempotent (s : jsstring) : trimStart (trimStart s) = trimStart s.
Proof.
  destruct (trimStart s) as [|c r] eqn:E; [reflexivity|].
  apply trimStart_fixed. exact (trimStart_head s c r E).
Qed.

(** Trimming what is trimmed changes nothing. *)
Lemma trim_idempotent (s : jsstring) : trim (trim s) = trim s.
Proof.
  unfold trim, trimEnd.
  set (t := trimStart s). set (u := trimStart (rev t)).
  assert (F : trimStart (rev u) = rev u).
  { destruct (rev u) as [|c r] eqn:E; [reflexivity|].
    apply trimStart_fixed.
    destruct (trimStart_split (rev t)) as [blank [S _]]. fold u in S.
    apply (f_equal (@rev N)) in S. rewrite rev_involutive, rev_app_distr, E in S.
    simpl in S. exact (trimStart_head s c _ S). }
  rewrite F, rev_involutive. unfold u. now rewrite trimStart_idempotent.
Qed.

Lemma isTrimmed_trim (s : jsstring) :
  trim s <> [] -> isTrimmed (trim s) = true.
Proof.
  intros H. unfold isTrimmed. rewrite trim_idempotent, jseqb_refl.
  destruct (trim s); [contradiction | reflexivity].
Qed.

Lemma requests_app (a b : list Effect) :
  requests (a ++ b) = requests a ++ requests b.
Proof. apply flat_map_app. Qed.

Lemma sendsGood_refl (w : World) : sendsGood w w.
Proof. exists []. split; [now rewrite app_nil_r | reflexivity]. Qed.

Lemma sendsGood_trans (a b c : World) :
  sendsGood a b -> sendsGood b c -> sendsGood a c.
Proof.
  intros [l [E G]] [l' [E' G']]. exists (l ++ l'). split.
  - now rewrite E', E, app_assoc.
  - now rewrite forallb_app, G, G'.
Qed.

Ltac sendsGood_leaf :=
  idtac;
  match goal with
  | |- sendsGood ?w _ =>
      destruct w as [[? ? ?] ? ? ? ? ?];
      try (match goal with found : Found |- _ => destruct found end);
      exists []; (split; [|reflexivity]); simpl;
      rewrite ?requests_app; simpl; rewrite ?app_nil_r; reflexivity
  end.

Lemma sendsGood_sendMessage : respects sendsGood sendMessage.
Proof.
  intros w.
  destruct (blocked (trim (messageInput_value (doc w))) (state w)) eqn:B.
  - rewrite sendMessage_unfold, B. apply sendsGood_refl.
  - rewrite (sendMessage_ready w B).
    exists [PostAsk (trim (messageInput_value (doc w))) TOP_K]. split.
    + unfold asked. simpl. rewrite !requests_app. simpl.
      now rewrite !app_nil_r.
    + apply blocked_false in B as [Q _].
      cbn [forallb goodRequest]. rewrite (isTrimmed_trim _ Q). reflexivity.
Qed.

Ltac sendsGood_steps :=
  respects_steps sendsGood_refl sendsGood_trans
    ltac:(apply sendsGood_sendMessage) ltac:(sendsGood_leaf).

Lemma sendsGood_loadRepository : respects sendsGood loadRepository.
Proof.
  intros w. destruct (trim (repoPath_value (doc w))) as [|c p] eqn:T.
  - rewrite (loadRepository_no_path w T).
    assert (S : respects sendsGood
                  (showError (js "Please enter a repository path"))).
    { unfold showError, updateRepoStatus, setTimeout. sendsGood_steps. }
    apply S.
  - assert (N : trim (repoPath_value (doc w)) <> []) by (rewrite T; discriminate).
    rewrite (loadRepository_ready w N).
    exists [PostLoad (trim (repoPath_value (doc w)))]. split.
    + simpl. rewrite requests_app. reflexivity.
    + cbn [forallb goodRequest]. rewrite (isTrimmed_trim _ N). reflexivity.
Qed.

(** X14: the page never sends a request that the service cannot use: every
    load request it has sent carries a path that is trimmed and not empty,
    and every question request a question that is trimmed and not empty,
    together with the result count 5. *)
Theorem requests_well_formed (w : World) :
  reachable w -> forallb goodRequest (requests (history w)) = true.
Proof.
  intros [d [now [es [_ H]]]].
  assert (S : sendsGood (boot d now) w).
  { revert H.
    apply (run_respects sendsGood sendsGood_refl sendsGood_trans);
      try (intros; sendsGood_leaf).
    - apply sendsGood_loadRepository.
    - apply sendsGood_sendMessage.
    - intros q. unfold quickClick. sendsGood_steps.
    - intros r. unfold checkStatus_resume. sendsGood_steps.
    - intros p r. unfold loadRepository_resume. sendsGood_steps.
    - intros i r. unfold sendMessage_resume. sendsGood_steps.
    - unfold revertStatus. sendsGood_steps. }
  destruct S as [l [E G]]. rewrite E, forallb_app, G. reflexivity.
Qed.

Lemma requests_well_formed_witness :
  let w := after [PathInput (js "  "); LoadClick;
                  PathInput (js " ./repo "); LoadClick;
                  LoadReply (js "./repo")
                    (Received true (mkLoadData None (Some (js "ok"))
                                      (Some (Some (mkRepoStats 1 2 3)))));
                  MessageInput (js "   "); SendClick;
                  QuickClick (Some (js " Explain the file structure "))]
                 (boot dom0 1000) in
  forallb goodRequest (requests (history w)) = true
  /\ requests (history w)
     = [GetStatus; PostLoad (js "./repo");
        PostAsk (js "Explain the file structure") 5].
Proof.
  intros w. split.
  - apply (requests_well_formed w).
    exists dom0, 1000,
      [PathInput (js "  "); LoadClick;
       PathInput (js " ./repo "); LoadClick;
       LoadReply (js "./repo")
         (Received true (mkLoadData None (Some (js "ok"))
                           (Some (Some (mkRepoStats 1 2 3)))));
       MessageInput (js "   "); SendClick;
       QuickClick (Some (js " Explain the file structure "))].
    split; [reflexivity | vm_compute; reflexivity].
  - vm_compute. reflexivity.
Defined.

(** ** Replies to the status probe and to a load *)

(** X15: a status probe that fails, or that reports no loaded repository,
    changes nothing and shows nothing.  One that reports a loaded
    repository (whatever its HTTP status) together with its path loads the
    session and enables the chat without a message and without a request.
    One that reports a loaded repository without a path, or with [null] for
    it, is applied in part only: the state object and the path field are
    written, then [getBasename] throws, the error is swallowed, and the
    status line and the chat controls stay as they were. *)
Theorem checkStatus_replay :
  (forall (r : Reply StatusData) (w : World),
     statusLoaded r = false -> checkStatus_resume r w = (Normal tt, w))
  /\
  (forall (ok : bool) (path : jsstring) (stats : option RepoStats) (w : World),
     let r := Received ok (mkStatusData true (Text path) stats) in
     let w' := exec (checkStatus_resume r) w in
     fst (checkStatus_resume r w) = Normal tt
     /\ repositoryLoaded (state w') = true
     /\ currentPath (state w') = Some path
     /\ isLoading (state w') = isLoading (state w)
     /\ repoPath_value (doc w') = path
     /\ repoStatus_className (doc w') = js "repo-status " ++ js "loaded"
     /\ repoStatus_text (doc w') = js "Loaded: " ++ getBasename path
     /\ messageInput_disabled (doc w') = false
     /\ sendBtn_disabled (doc w') = false
     /\ messages (doc w') = messages (doc w)
     /\ history w' = history w)
  /\
  (forall (ok : bool) (path : Nullable) (stats : option RepoStats) (w : World),
     assigned path = None ->
     let r := Received ok (mkStatusData true path stats) in
     let w' := exec (checkStatus_resume r) w in
     fst (checkStatus_resume r w) = Normal tt
     /\ repositoryLoaded (state w') = true
     /\ currentPath (state w') = None
     /\ isLoading (state w') = isLoading (state w)
     /\ repoPath_value (doc w') = asFieldValue path
     /\ repoStatus_className (doc w') = repoStatus_className (doc w)
     /\ repoStatus_text (doc w') = repoStatus_text (doc w)
     /\ statsSection_hidden (doc w') = statsSection_hidden (doc w)
     /\ messageInput_disabled (doc w') = messageInput_disabled (doc w)
     /\ sendBtn_disabled (doc w') = sendBtn_disabled (doc w)
     /\ messages (doc w') = messages (doc w)
     /\ history w' = history w).
Proof.
  split; [|split].
  - intros r w H. destruct r as [m | ok [[|] p st]];
      [reflexivity | discriminate H | reflexivity].
  - intros ok path st w. destruct w as [s d c t i h]. destruct st; repeat split.
  - intros ok path st w H. destruct w as [s d c t i h].
    destruct path as [| |p]; [| |discriminate H]; repeat split.
Qed.

Lemma checkStatus_replay_witness :
  checkStatus_resume (Rejected (js "Failed to fetch")) (boot dom0 1000)
  = (Normal tt, boot dom0 1000)
  /\ repositoryLoaded
       (state (exec (checkStatus_resume
                       (Received true
                          (mkStatusData true (Text (js "/srv/repo"))
                             (Some (mkRepoStats 4 5 6)))))
                 (boot dom0 1000))) = true
  /\ messageInput_disabled
       (doc (exec (checkStatus_resume
                     (Received true (mkStatusData true Missing None)))
               (boot dom0 1000))) = true.
Proof.
  destruct checkStatus_replay as [S [L P]]. split; [|split].
  - apply S. reflexivity.
  - exact (proj1 (proj2 (L true (js "/srv/repo") (Some (mkRepoStats 4 5 6))
                           (boot dom0 1000)))).
  - destruct (P true Missing None (boot dom0 1000) eq_refl)
      as [_ [_ [_ [_ [_ [_ [_ [_ [M _]]]]]]]]].
    rewrite M. reflexivity.
Defined.


(** ** Asking again *)

Lemma askedWhenLoaded_refl (w : World) : keepsAskedWhenLoaded w w.
Proof. intros H. exact H. Qed.

Lemma askedWhenLoaded_trans (a b c : World) :
  keepsAskedWhenLoaded a b -> keepsAskedWhenLoaded b c ->
  keepsAskedWhenLoaded a c.
Proof. unfold keepsAskedWhenLoaded. auto. Qed.

Ltac askedWhenLoaded_leaf :=
  idtac;
  match goal with
  | |- keepsAskedWhenLoaded ?w _ =>
      destruct w as [[? ? ?] ? ? ? ? ?];
      unfold keepsAskedWhenLoaded, askedWhenLoaded; simpl; intros;
      first [reflexivity | discriminate | solve [auto]]
  end.

Lemma askedWhenLoaded_sendMessage : respects keepsAskedWhenLoaded sendMessage.
Proof.
  intros w.
  destruct (blocked (trim (messageInput_value (doc w))) (state w)) eqn:B.
  - rewrite sendMessage_unfold, B. apply askedWhenLoaded_refl.
  - rewrite (sendMessage_ready w B). intros _ _.
    apply blocked_false in B as [_ [L _]]. exact L.
Qed.

Ltac askedWhenLoaded_steps :=
  respects_steps askedWhenLoaded_refl askedWhenLoaded_trans
    ltac:(apply askedWhenLoaded_sendMessage) ltac:(askedWhenLoaded_leaf).

Lemma reachable_askedWhenLoaded (w : World) : reachable w -> askedWhenLoaded w.
Proof.
  intros [d [now [es [_ H]]]].
  assert (K : keepsAskedWhenLoaded (boot d now) w).
  { revert H.
    apply (run_respects keepsAskedWhenLoaded askedWhenLoaded_refl
             askedWhenLoaded_trans);
      try (intros; askedWhenLoaded_leaf).
    - unfold loadRepository. askedWhenLoaded_steps.
    - apply askedWhenLoaded_sendMessage.
    - intros q. unfold quickClick. askedWhenLoaded_steps.
    - intros r. unfold checkStatus_resume. askedWhenLoaded_steps.
    - intros p r. unfold loadRepository_resume. askedWhenLoaded_steps.
    - intros i r. unfold sendMessage_resume. askedWhenLoaded_steps.
    - unfold revertStatus. askedWhenLoaded_steps. }
  apply K. intros L. discriminate L.
Qed.

(** Typing a question that is not blank into the enabled message field of
    an idle page with a repository loaded, and submitting it, sends it. *)
Lemma typed_question_sent (w : World) (question : jsstring) :
  repositoryLoaded (state w) = true ->
  isLoading (state w) = false ->
  messageInput_disabled (doc w) = false ->
  trim question <> [] ->
  exists w2 : World,
    runPage [MessageInput question; SendClick] w = Some w2
    /\ isLoading (state w2) = true
    /\ history w2
       = history w
         ++ [Appended (userElement (trim question));
             Appended (typingElement (js "typing-" ++ decimal (clock w)));
             Fetched (PostAsk (trim question) TOP_K)].
Proof.
  intros L I M Q.
  set (w1 := on_doc (set_messageInput_value question) w).
  assert (B : blocked (trim (messageInput_value (doc w1))) (state w1) = false).
  { unfold w1. destruct w as [[rl il cp] d c t i h]. simpl in *. subst.
    unfold blocked. simpl. destruct (trim question); [contradiction | reflexivity]. }
  assert (H1 : deliver (MessageInput question) w = Some w1).
  { unfold deliver, enabled. rewrite M. reflexivity. }
  assert (H2 : deliver SendClick w1 = Some (asked w1)).
  { assert (E : enabled SendClick w1 = true).
    { unfold w1. destruct w as [s d c t i h]. simpl in *. rewrite M.
      apply orb_true_r. }
    unfold deliver. rewrite E. unfold handle, exec.
    now rewrite (sendMessage_ready w1 B). }
  exists (asked w1). split.
  - cbn [runPage]. rewrite H1, H2. reflexivity.
  - split; [reflexivity|].
    unfold asked, w1. destruct w as [s d c t i h]. cbn.
    rewrite <- !app_assoc. reflexivity.
Qed.

(** X17: the page stays usable after every reply to a question, failures
    included: in every world the page can be in where the message field is
    enabled, once the reply to the question in flight has been handled, the
    send button is enabled again, and a new question that is not blank,
    typed and submitted, is accepted and sent. *)
Theorem ask_again_after_reply
    (w : World) (id question : jsstring) (r : Reply AskData) :
  reachable w ->
  In (AwaitAsk id) (inflight w) ->
  messageInput_disabled (doc w) = false ->
  trim question <> [] ->
  exists w1 w2 : World,
    deliver (AskReply id r) w = Some w1
    /\ isLoading (state w1) = false
    /\ sendBtn_disabled (doc w1) = false
    /\ messageInput_disabled (doc w1) = false
    /\ runPage [MessageInput question; SendClick] w1 = Some w2
    /\ isLoading (state w2) = true
    /\ history w2
       = history w1
         ++ [Appended (userElement (trim question));
             Appended (typingElement (js "typing-" ++ decimal (clock w1)));
             Fetched (PostAsk (trim question) TOP_K)].
Proof.
  intros R I M Q.
  pose proof (reachable_consistent w R) as C.
  pose proof (reachable_askedWhenLoaded w R) as L.
  destruct (takeTask_In _ _ I) as [l T].
  destruct (takeTask_consistent id w l C T) as [IL _].
  specialize (L IL).
  destruct (sendMessage_resume_done id r (set_inflight l w)) as [L1 S1].
  destruct (askFrame_sendMessage_resume id r (set_inflight l w))
    as [_ [_ [_ [RL [_ MD]]]]].
  fold (exec (sendMessage_resume id r) (set_inflight l w)) in RL, MD.
  set (w1 := exec (sendMessage_resume id r) (set_inflight l w)) in *.
  assert (RL1 : repositoryLoaded (state w1) = true) by (rewrite RL; exact L).
  assert (MD1 : messageInput_disabled (doc w1) = false) by (rewrite MD; exact M).
  destruct (typed_question_sent w1 question RL1 L1 MD1 Q) as [w2 [H2 [I2 Hi]]].
  exists w1, w2. split.
  { unfold deliver, enabled, handle, resume. now rewrite T. }
  repeat split; assumption.
Qed.

Lemma ask_again_after_reply_witness :
  let w := after [PathInput (js "./repo"); LoadClick;
                  LoadReply (js "./repo")
                    (Received true (mkLoadData None (Some (js "ok"))
                                      (Some (Some (mkRepoStats 1 2 3)))));
                  MessageInput (js "hi"); SendClick] (boot dom0 1000) in
  exists w1 w2 : World,
    deliver (AskReply (js "typing-1000") (Rejected (js "offline"))) w = Some w1
    /\ isLoading (state w1) = false
    /\ sendBtn_disabled (doc w1) = false
    /\ messageInput_disabled (doc w1) = false
    /\ runPage [MessageInput (js " again "); SendClick] w1 = Some w2
    /\ isLoading (state w2) = true
    /\ history w2
       = history w1
         ++ [Appended (userElement (trim (js " again ")));
             Appended (typingElement (js "typing-" ++ decimal (clock w1)));
             Fetched (PostAsk (trim (js " again ")) TOP_K)].
Proof.
  intros w.
  apply (ask_again_after_reply w (js "typing-1000") (js " again ")
           (Rejected (js "offline"))).
  - exists dom0, 1000,
      [PathInput (js "./repo"); LoadClick;
       LoadReply (js "./repo")
         (Received true (mkLoadData None (Some (js "ok"))
                           (Some (Some (mkRepoStats 1 2 3)))));
       MessageInput (js "hi"); SendClick].
    split; [reflexivity | vm_compute; reflexivity].
  - vm_compute. right. left. reflexivity.
  - vm_compute. reflexivity.
  - vm_compute. discriminate.
Defined.

(** X18: a click on a quick-question button while a question is in flight
    sends nothing and appends nothing, but it does overwrite what the user
    had typed into the message field with the question of the button. *)
Theorem quickClick_while_loading (question : jsstring) (w : World) :
  repositoryLoaded (state w) = true ->
  isLoading (state w) = true ->
  question <> [] ->
  handle (QuickClick (Some question)) w
  = Some (on_doc (set_messageInput_value question) w).
Proof.
  intros L I Q. unfold handle, exec, quickClick.
  unfold bind at 1. unfold read at 1. rewrite L.
  destruct question as [|c q]; [contradiction|].
  cbn [truthy andb]. unfold bind at 1. unfold write at 1.
  rewrite sendMessage_unfold.
  assert (B : blocked (trim (messageInput_value
                               (doc (on_doc (set_messageInput_value (c :: q)) w))))
                (state (on_doc (set_messageInput_value (c :: q)) w)) = true).
  { apply blocked_true. right. left. exact I. }
  now rewrite B.
Qed.

Lemma quickClick_while_loading_witness :
  let w := after [PathInput (js "./repo"); LoadClick;
                  LoadReply (js "./repo")
                    (Received true (mkLoadData None (Some (js "ok"))
                                      (Some (Some (mkRepoStats 1 2 3)))));
                  MessageInput (js "hi"); SendClick;
                  MessageInput (js "my draft")] (boot dom0 1000) in
  handle (QuickClick (Some (js "Explain the file structure"))) w
  = Some (on_doc (set_messageInput_value (js "Explain the file structure")) w).
Proof.
  intros w.
  apply (quickClick_while_loading (js "Explain the file structure") w).
  - vm_compute. reflexivity.
  - vm_compute. reflexivity.
  - discriminate.
Defined.

(** X19: [loadRepository] has no guard against a load in flight: a second
    click on the load button before the reply sends the same request a
    second time, and two handlers then wait for a reply. *)
Theorem loadRepository_twice (w : World) :
  trim (repoPath_value (doc w)) <> [] ->
  let path := trim (repoPath_value (doc w)) in
  exists w' : World,
    run [LoadClick; LoadClick] w = Some w'
    /\ history w' = history w ++ [Fetched (PostLoad path); Fetched (PostLoad path)]
    /\ inflight w' = inflight w ++ [AwaitLoad path; AwaitLoad path]
    /\ state w' = state w.
Proof.
  intros H path.
  assert (E1 := loadRepository_ready w H).
  set (w1 := snd (loadRepository w)).
  assert (P : trim (repoPath_value (doc w1)) = path).
  { unfold w1. rewrite E1. reflexivity. }
  assert (H1 : trim (repoPath_value (doc w1)) <> []) by now rewrite P.
  assert (E2 := loadRepository_ready w1 H1).
  exists (snd (loadRepository w1)). split; [reflexivity|].
  rewrite E2. cbn [snd history inflight state]. rewrite P.
  unfold w1. rewrite E1. cbn [snd history inflight state].
  rewrite <- !app_assoc. repeat split.
Qed.

Lemma loadRepository_twice_witness :
  let w := on_doc (set_repoPath_value (js " ./repo ")) (boot dom0 1000) in
  exists w' : World,
    run [LoadClick; LoadClick] w = Some w'
    /\ history w'
       = history w ++ [Fetched (PostLoad (trim (js " ./repo ")));
                       Fetched (PostLoad (trim (js " ./repo ")))]
    /\ inflight w'
       = inflight w ++ [AwaitLoad (trim (js " ./repo "));
                        AwaitLoad (trim (js " ./repo "))]
    /\ state w' = state w.
Proof.
  intros w. apply (loadRepository_twice w). vm_compute. discriminate.
Defined.
